(** * Discord rich-presence IPC client (pkg/discord-rpc/client)

    A shallow embedding of the Go package [client] (files [types.go],
    [response.go] and the functions [Login], [Logout], [SetActivity] and
    [getNonce]) together with the parts of its collaborators that the
    client drives: the [ipc] package (socket, frame codec) and the few
    library calls it makes ([encoding/json], [crypto/rand], [os.Getpid],
    [fmt.Println]).

    Go strings are byte strings: they are [string] here, and the wire
    carries [list byte].  Go [int]/[uint64] values that are only passed
    through are [Z]. *)

From Stdlib Require Import ZArith NArith List String Ascii Bool Lia Permutation.
From Stdlib Require Import Strings.Byte DecimalString.
Import ListNotations.

Set Warnings "-register-all".
Local Open Scope string_scope.
Local Open Scope Z_scope.

(** ** JSON documents *)

(** The value tree that [encoding/json] writes and reads.  An object keeps
    its members in order (the encoder emits struct fields in declaration
    order; the decoder visits members in input order, a later duplicate
    overriding an earlier one). *)
Inductive json : Type :=
| JNull
| JBool (b : bool)
| JNum (n : Z)
| JFloat (literal : string)   (* a number that is not an integer, as written *)
| JStr (s : string)
| JArr (items : list json)
| JObj (members : list (string * json)).

(** The keys of an object, in order; [None] when the value is not an object. *)
Definition keys (j : json) : option (list string) :=
  match j with
  | JObj members => Some (map fst members)
  | _ => None
  end.

(** First member of an object stored under [key]. *)
Fixpoint assoc (key : string) (members : list (string * json)) : option json :=
  match members with
  | [] => None
  | (k, v) :: rest => if (k =? key)%string then Some v else assoc key rest
  end.

Definition member (key : string) (j : json) : option json :=
  match j with
  | JObj members => assoc key members
  | _ => None
  end.

(** ** Errors *)

Inductive error : Type :=
| EndpointExhausted
| NotConnected
| TruncatedFrame
| IOError (detail : string)
| JSONError (detail : string)
| Wrapped (context : string) (cause : error)
    (* fmt.Errorf("<context>: %w", cause) *)
| DiscordError (data : json).
    (* fmt.Errorf("discord error: %v", response.Data) *)

(** The two names under which the specification knows [DiscordError]:
    raised by [Login] it is the handshake rejection, raised by
    [SetActivity] the activity rejection. *)
Definition HandshakeRejected : json -> error := DiscordError.
Definition ActivityRejected : json -> error := DiscordError.

(** ** types.go: request documents *)

Record Handshake : Type := {
  V : string;          (* json:"v" *)
  ClientId : string    (* json:"client_id" *)
}.

Record PayloadAssets : Type := {
  LargeImage : string; (* json:"large_image,omitempty" *)
  LargeText : string;  (* json:"large_text,omitempty" *)
  SmallImage : string; (* json:"small_image,omitempty" *)
  SmallText : string   (* json:"small_text,omitempty" *)
}.

Record PayloadParty : Type := {
  ID : string;         (* json:"id,omitempty" *)
  Size : Z * Z         (* [2]int, json:"size,omitempty" *)
}.

Record PayloadTimestamps : Type := {
  Start : option Z;    (* *uint64, json:"start,omitempty" *)
  End_ : option Z      (* *uint64, json:"end,omitempty" *)
}.

Record PayloadSecrets : Type := {
  Match : string;      (* json:"match,omitempty" *)
  Join : string;       (* json:"join,omitempty" *)
  Spectate : string    (* json:"spectate,omitempty" *)
}.

Record PayloadButton : Type := {
  Label : string;      (* json:"label,omitempty" *)
  Url : string         (* json:"url,omitempty" *)
}.

(** A Go pointer field is an [option]: [None] is the nil pointer. *)
Record PayloadActivity : Type := {
  Type_ : Z;                              (* int, json:"type,omitempty" *)
  Details : string;                       (* json:"details,omitempty" *)
  State : string;                         (* json:"state,omitempty" *)
  Assets : PayloadAssets;                 (* struct value, json:"assets,omitempty" *)
  Party : option PayloadParty;            (* json:"party,omitempty" *)
  Timestamps : option PayloadTimestamps;  (* json:"timestamps,omitempty" *)
  Secrets : option PayloadSecrets;        (* json:"secrets,omitempty" *)
  Buttons : list (option PayloadButton)   (* []*PayloadButton, json:"buttons,omitempty" *)
}.

Record Args : Type := {
  Pid : Z;                                (* json:"pid" *)
  Activity : option PayloadActivity       (* *PayloadActivity, json:"activity" *)
}.

Record Frame : Type := {
  Cmd : string;        (* json:"cmd" *)
  Args_ : Args;        (* json:"args" *)
  Nonce : string       (* json:"nonce" *)
}.

(** The [ActivityType] namespace. *)
Module ActivityType.
Definition Playing : Z := 0.
Definition Listening : Z := 2.
Definition Watching : Z := 3.
Definition Custom : Z := 4.
Definition Competing : Z := 5.
End ActivityType.

(** ** What [json.Marshal] emits for these structs

    [omitempty] drops a field whose value is empty, where empty means
    false, 0, a nil pointer, a nil interface, or an array, slice, map or
    string of length zero.  A struct value is never empty, and neither is
    an array of non-zero length. *)

Definition omitempty_string (key : string) (s : string) : list (string * json) :=
  if (s =? EmptyString)%string then [] else [(key, JStr s)].

Definition omitempty_int (key : string) (n : Z) : list (string * json) :=
  if n =? 0 then [] else [(key, JNum n)].

Definition omitempty_ptr {A : Type} (key : string) (enc : A -> json) (p : option A)
  : list (string * json) :=
  match p with
  | None => []
  | Some a => [(key, enc a)]
  end.

Definition omitempty_slice {A : Type} (key : string) (enc : A -> json) (l : list A)
  : list (string * json) :=
  match l with
  | [] => []
  | _ :: _ => [(key, JArr (map enc l))]
  end.

(** A pointer that is not subject to [omitempty] (or that sits inside a
    slice): nil is written as [null]. *)
Definition ptr_json {A : Type} (enc : A -> json) (p : option A) : json :=
  match p with
  | None => JNull
  | Some a => enc a
  end.

Definition Handshake_json (h : Handshake) : json :=
  JObj [("v", JStr (V h)); ("client_id", JStr (ClientId h))].

Definition PayloadAssets_json (a : PayloadAssets) : json :=
  JObj (omitempty_string "large_image" (LargeImage a)
        ++ omitempty_string "large_text" (LargeText a)
        ++ omitempty_string "small_image" (SmallImage a)
        ++ omitempty_string "small_text" (SmallText a)).

Definition PayloadParty_json (p : PayloadParty) : json :=
  JObj (omitempty_string "id" (ID p)
        ++ [("size", JArr [JNum (fst (Size p)); JNum (snd (Size p))])]).

Definition PayloadTimestamps_json (t : PayloadTimestamps) : json :=
  JObj (omitempty_ptr "start" JNum (Start t)
        ++ omitempty_ptr "end" JNum (End_ t)).

Definition PayloadSecrets_json (s : PayloadSecrets) : json :=
  JObj (omitempty_string "match" (Match s)
        ++ omitempty_string "join" (Join s)
        ++ omitempty_string "spectate" (Spectate s)).

Definition PayloadButton_json (b : PayloadButton) : json :=
  JObj (omitempty_string "label" (Label b)
        ++ omitempty_string "url" (Url b)).

Definition PayloadActivity_json (a : PayloadActivity) : json :=
  JObj (omitempty_int "type" (Type_ a)
        ++ omitempty_string "details" (Details a)
        ++ omitempty_string "state" (State a)
        ++ [("assets", PayloadAssets_json (Assets a))]
        ++ omitempty_ptr "party" PayloadParty_json (Party a)
        ++ omitempty_ptr "timestamps" PayloadTimestamps_json (Timestamps a)
        ++ omitempty_ptr "secrets" PayloadSecrets_json (Secrets a)
        ++ omitempty_slice "buttons" (ptr_json PayloadButton_json) (Buttons a)).

Definition Args_json (a : Args) : json :=
  JObj [("pid", JNum (Pid a));
        ("activity", ptr_json PayloadActivity_json (Activity a))].

Definition Frame_json (f : Frame) : json :=
  JObj [("cmd", JStr (Cmd f)); ("args", Args_json (Args_ f)); ("nonce", JStr (Nonce f))].

(** ** response.go: reply documents *)

Record Response : Type := {
  RespCmd : string;    (* Cmd, json:"cmd" *)
  Data : json;         (* any, json:"data"; a nil interface is [JNull] *)
  Event : string;      (* json:"evt,omitempty" *)
  RespNonce : string   (* Nonce, json:"nonce,omitempty" *)
}.

Record Config : Type := {
  CDNHost : string;      (* json:"cdn_host" *)
  APIEndpoint : string;  (* json:"api_endpoint" *)
  Environment : string   (* json:"environment" *)
}.

Definition PremiumType : Type := Z.
Definition PremiumNone : PremiumType := 0.
Definition PremiumClassic : PremiumType := 1.
Definition PremiumNitro : PremiumType := 2.

Record User : Type := {
  UserID : string;        (* ID, json:"id" *)
  Username : string;      (* json:"username" *)
  Discriminator : string; (* json:"discriminator" *)
  Avatar : string;        (* json:"avatar" *)
  Bot : bool;             (* json:"bot" *)
  Flags : Z;              (* json:"flags" *)
  Premium : PremiumType   (* PremiumType, json:"premium_type" *)
}.

Record HandshakeResponse : Type := {
  Version : Z;            (* json:"v" *)
  Config_ : Config;       (* json:"config" *)
  User_ : User            (* json:"user" *)
}.

(** The zero value a [var response Response] starts from. *)
Definition Response_zero : Response :=
  {| RespCmd := EmptyString; Data := JNull; Event := EmptyString; RespNonce := EmptyString |}.

(** *** How [json.Unmarshal] fills a [Response] from a document

    Member names are matched to the field tags without regard to letter
    case (the four tags hold no letter with a non-ASCII case variant, so
    ASCII folding is exact).  A string field takes a JSON string, is left
    alone by [null], and records a type error for anything else; the [any]
    field takes every value.  Decoding goes on after a type error and the
    first one recorded is returned at the end.  A top-level [null] leaves
    the target untouched; any other non-object is a type error. *)

Definition lower_ascii (c : ascii) : ascii :=
  let n := nat_of_ascii c in
  if ((65 <=? n) && (n <=? 90))%nat then ascii_of_nat (n + 32) else c.

Fixpoint fold_name (s : string) : string :=
  match s with
  | EmptyString => EmptyString
  | String c rest => String (lower_ascii c) (fold_name rest)
  end.

Definition type_error (field : string) : error :=
  JSONError ("cannot unmarshal into Go struct field Response." ++ field ++ " of type string").

Definition into_string (field : string) (v : json) (old : string) : string * option error :=
  match v with
  | JStr s => (s, None)
  | JNull => (old, None)
  | _ => (old, Some (type_error field))
  end.

Definition Response_set (r : Response) (kv : string * json) : Response * option error :=
  let name := fold_name (fst kv) in
  let v := snd kv in
  if (name =? "cmd")%string then
    let (s, e) := into_string "cmd" v (RespCmd r) in
    ({| RespCmd := s; Data := Data r; Event := Event r; RespNonce := RespNonce r |}, e)
  else if (name =? "data")%string then
    ({| RespCmd := RespCmd r; Data := v; Event := Event r; RespNonce := RespNonce r |}, None)
  else if (name =? "evt")%string then
    let (s, e) := into_string "evt" v (Event r) in
    ({| RespCmd := RespCmd r; Data := Data r; Event := s; RespNonce := RespNonce r |}, e)
  else if (name =? "nonce")%string then
    let (s, e) := into_string "nonce" v (RespNonce r) in
    ({| RespCmd := RespCmd r; Data := Data r; Event := Event r; RespNonce := s |}, e)
  else (r, None).

Definition first_error (saved new : option error) : option error :=
  match saved with
  | Some e => Some e
  | None => new
  end.

Fixpoint Response_fill (members : list (string * json)) (r : Response) (saved : option error)
  : Response * option error :=
  match members with
  | [] => (r, saved)
  | kv :: rest =>
      let (r', e) := Response_set r kv in
      Response_fill rest r' (first_error saved e)
  end.

Definition decode_Response (doc : json) : error + Response :=
  match doc with
  | JNull => inr Response_zero
  | JObj members =>
      match Response_fill members Response_zero None with
      | (r, None) => inr r
      | (_, Some e) => inl e
      end
  | _ => inl (JSONError "cannot unmarshal into Go value of type client.Response")
  end.

(** ** The [ipc] package: frame codec *)

Module Codec.

(** Modelled from the spec: the [ipc] package's frame type, the unit of
    wire transfer [{opcode: uint32, length: uint32, payload: bytes}]. *)
Record Frame : Type := {
  opcode : Z;
  length : Z;
  payload : list byte
}.

Definition byte_of_Z (z : Z) : byte :=
  match Byte.of_N (Z.to_N (z mod 256)) with
  | Some b => b
  | None => x00
  end.

Definition Z_of_byte (b : byte) : Z := Z.of_N (Byte.to_N b).

(** An unsigned 32-bit integer, least significant byte first; a value
    outside the range is taken modulo 2^32. *)
Definition le32 (n : Z) : list byte :=
  [byte_of_Z n; byte_of_Z (n / 2 ^ 8); byte_of_Z (n / 2 ^ 16); byte_of_Z (n / 2 ^ 24)].

Definition u32 (b0 b1 b2 b3 : byte) : Z :=
  Z_of_byte b0 + 2 ^ 8 * Z_of_byte b1 + 2 ^ 16 * Z_of_byte b2 + 2 ^ 24 * Z_of_byte b3.

(** Modelled from the spec: [encode] of the [ipc] package's frame codec,
    "a fixed 8-byte header (opcode, then payload length, both
    little-endian 32-bit unsigned) followed by the raw payload bytes". *)
Definition encode (op : Z) (body : list byte) : list byte :=
  le32 op ++ le32 (Z.of_nat (List.length body)) ++ body.

(** Modelled from the spec: [decode] of the [ipc] package's frame codec,
    which "reads exactly 8 header bytes, then exactly [length] payload
    bytes" and fails with [TruncatedFrame] if the stream closes
    mid-frame.  [stream] is everything the stream delivers before it
    closes; the bytes after the frame are returned for the next read. *)
Definition decode (stream : list byte) : error + (Frame * list byte) :=
  match stream with
  | o0 :: o1 :: o2 :: o3 :: l0 :: l1 :: l2 :: l3 :: rest =>
      let len := u32 l0 l1 l2 l3 in
      if Z.of_nat (List.length rest) <? len then inl TruncatedFrame
      else inr ({| opcode := u32 o0 o1 o2 o3;
                   length := len;
                   payload := firstn (Z.to_nat len) rest |},
                skipn (Z.to_nat len) rest)
  | _ => inl TruncatedFrame
  end.

(** The pairs the codec is specified for: both header fields fit an
    unsigned 32-bit integer. *)
Definition valid (op : Z) (body : list byte) : Prop :=
  0 <= op < 2 ^ 32 /\ Z.of_nat (List.length body) < 2 ^ 32.

End Codec.

(** ** The world the client runs in *)

(** The package-level variables of [client] and [ipc], and the part of the
    environment the calls observe or change. *)
Record World : Type := {
  logged : bool;                (* client: var logged bool *)
  socket : option nat;          (* ipc: the open connection, by endpoint ordinal *)
  pid : Z;                      (* os.Getpid() *)
  entropy : list byte;          (* bytes the random source still delivers *)
  rand_fault : error;           (* what the source reports once they are used up *)
  rand_fatal : bool;            (* crypto/rand.Read ends the process on that report
                                   (Go 1.24 and later) instead of returning it *)
  listening : list nat;         (* endpoint ordinals that accept a connection *)
  inbound : list byte;          (* bytes the companion process delivers *)
  outbound : list byte;         (* bytes written to the connection so far *)
  write_fault : option string;  (* the OS refuses writes with this message *)
  close_fault : option string;  (* the OS reports this message on close *)
  stdout : list error           (* values printed by fmt.Println, in order *)
}.

Definition set_logged (b : bool) (w : World) : World :=
  {| logged := b; socket := socket w; pid := pid w; entropy := entropy w;
     rand_fault := rand_fault w; rand_fatal := rand_fatal w;
     listening := listening w; inbound := inbound w; outbound := outbound w;
     write_fault := write_fault w; close_fault := close_fault w; stdout := stdout w |}.

Definition set_socket (c : option nat) (w : World) : World :=
  {| logged := logged w; socket := c; pid := pid w; entropy := entropy w;
     rand_fault := rand_fault w; rand_fatal := rand_fatal w;
     listening := listening w; inbound := inbound w; outbound := outbound w;
     write_fault := write_fault w; close_fault := close_fault w; stdout := stdout w |}.

Definition set_entropy (e : list byte) (w : World) : World :=
  {| logged := logged w; socket := socket w; pid := pid w; entropy := e;
     rand_fault := rand_fault w; rand_fatal := rand_fatal w;
     listening := listening w; inbound := inbound w; outbound := outbound w;
     write_fault := write_fault w; close_fault := close_fault w; stdout := stdout w |}.

Definition set_inbound (i : list byte) (w : World) : World :=
  {| logged := logged w; socket := socket w; pid := pid w; entropy := entropy w;
     rand_fault := rand_fault w; rand_fatal := rand_fatal w;
     listening := listening w; inbound := i; outbound := outbound w;
     write_fault := write_fault w; close_fault := close_fault w; stdout := stdout w |}.

Definition set_outbound (o : list byte) (w : World) : World :=
  {| logged := logged w; socket := socket w; pid := pid w; entropy := entropy w;
     rand_fault := rand_fault w; rand_fatal := rand_fatal w;
     listening := listening w; inbound := inbound w; outbound := o;
     write_fault := write_fault w; close_fault := close_fault w; stdout := stdout w |}.

Definition set_stdout (l : list error) (w : World) : World :=
  {| logged := logged w; socket := socket w; pid := pid w; entropy := entropy w;
     rand_fault := rand_fault w; rand_fatal := rand_fatal w;
     listening := listening w; inbound := inbound w; outbound := outbound w;
     write_fault := write_fault w; close_fault := close_fault w; stdout := l |}.

(** A call returns a value, panics, or is cut short because the runtime
    ended the process with a fatal error (no deferred call runs and nothing
    recovers it); each way it leaves a world behind. *)
Inductive outcome (A : Type) : Type :=
| Return (a : A)
| Panic (e : error)
| Crash (e : error).
Arguments Return {A} a.
Arguments Panic {A} e.
Arguments Crash {A} e.

Definition M (A : Type) : Type := World -> outcome A * World.

Definition ret {A : Type} (a : A) : M A := fun w => (Return a, w).

Definition bind {A B : Type} (c : M A) (k : A -> M B) : M B :=
  fun w =>
    match c w with
    | (Return a, w') => k a w'
    | (Panic e, w') => (Panic e, w')
    | (Crash e, w') => (Crash e, w')
    end.

Definition panic {A : Type} (e : error) : M A := fun w => (Panic e, w).
Definition get {A : Type} (f : World -> A) : M A := fun w => (Return (f w), w).
Definition modify (f : World -> World) : M unit := fun w => (Return tt, f w).

Notation "x <- c ;; k" := (bind c (fun x => k))
  (at level 61, c at next level, right associativity).
Notation "c ;;; k" := (bind c (fun _ => k))
  (at level 61, right associativity).

(** Go's [error] result: [None] is [nil]. *)
Definition nil_error : option error := None.

(** ** The [ipc] package: socket *)

Module ipc.

(** Modelled from the spec: the Endpoint Locator's candidates, ordinals
    0 to 9. *)
Definition candidates : list nat := seq 0 10.

Definition accepts (w : World) (k : nat) : bool := existsb (Nat.eqb k) (listening w).

(** Modelled from the spec: [ipc.OpenSocket], the Endpoint Locator and
    the opening of the Connection: the candidates are tried in order,
    the first that accepts becomes the connection, and when none does
    the call "fails with EndpointExhausted". *)
Definition OpenSocket : M (option error) :=
  fun w =>
    match find (accepts w) candidates with
    | Some k => (Return nil_error, set_socket (Some k) w)
    | None => (Return (Some EndpointExhausted), w)
    end.

(** Modelled from the spec: [ipc.CloseSocket], which "closes the
    Connection unconditionally (even from Disconnected/Closed)"; a close
    failure is reported to the caller and the connection is gone all
    the same. *)
Definition CloseSocket : M (option error) :=
  fun w =>
    match socket w with
    | None => (Return nil_error, w)
    | Some _ => (Return (option_map IOError (close_fault w)), set_socket None w)
    end.

(** Modelled from the spec: [ipc.Send], "exactly one send followed by
    exactly one blocking receive": the frame is encoded and written,
    then one reply frame is decoded from the stream and its payload
    returned, whatever its opcode.  The connection is released "on any
    unrecoverable I/O error encountered during send or receive". *)
Definition Send (op : Z) (body : string) : M (error + string) :=
  fun w =>
    match socket w with
    | None => (Return (inl NotConnected), w)
    | Some _ =>
        match write_fault w with
        | Some msg => (Return (inl (IOError msg)), set_socket None w)
        | None =>
            let w1 := set_outbound (outbound w ++ Codec.encode op (list_byte_of_string body)) w in
            match Codec.decode (inbound w1) with
            | inl err => (Return (inl err), set_socket None (set_inbound [] w1))
            | inr (f, rest) =>
                (Return (inr (string_of_list_byte (Codec.payload f))), set_inbound rest w1)
            end
        end
    end.

End ipc.

(** ** The [client] package *)

(** *** Library calls that touch the world *)

(** [rand.Read(buf)] on a zeroed buffer of [n] bytes: the buffer is filled
    from the random source.  When the source cannot fill it, a program
    built with Go 1.24 or later is ended by the runtime ([Read] "never
    returns an error"); built with an earlier Go, [Read] is
    [io.ReadFull(Reader, b)]: the bytes read so far stay in place and the
    error is returned. *)
Definition rand_returns (n : nat) (w : World) : bool :=
  (n <=? List.length (entropy w))%nat || negb (rand_fatal w).

Definition rand_Read (n : nat) : M (list byte * option error) :=
  fun w =>
    let got := firstn n (entropy w) in
    let buf := (got ++ repeat x00 (n - List.length got))%list in
    let w' := set_entropy (skipn n (entropy w)) w in
    if (n <=? List.length (entropy w))%nat then (Return (buf, nil_error), w')
    else if rand_fatal w then (Crash (rand_fault w), w')
    else (Return (buf, Some (rand_fault w)), w').

Definition Println (e : error) : M unit :=
  modify (fun w => set_stdout (stdout w ++ [e]) w).

(** *** Bytes and their [%x] rendering *)

Definition byte_and (a b : byte) : byte :=
  Codec.byte_of_Z (Z.land (Codec.Z_of_byte a) (Codec.Z_of_byte b)).

Definition byte_or (a b : byte) : byte :=
  Codec.byte_of_Z (Z.lor (Codec.Z_of_byte a) (Codec.Z_of_byte b)).

Definition hex_digit (n : Z) : ascii :=
  if n <? 10 then ascii_of_nat (Z.to_nat (48 + n)) else ascii_of_nat (Z.to_nat (87 + n)).

Definition hex_byte (b : byte) : string :=
  String (hex_digit (Codec.Z_of_byte b / 16))
    (String (hex_digit (Codec.Z_of_byte b mod 16)) EmptyString).

(** [fmt.Sprintf("%x", s)] for a byte slice [s]. *)
Fixpoint hex (l : list byte) : string :=
  match l with
  | [] => EmptyString
  | b :: rest => hex_byte b ++ hex rest
  end.

(** The characters [%x] can produce: a decimal digit or a letter from a to f. *)
Definition lower_hex (c : ascii) : bool :=
  let n := nat_of_ascii c in
  (((48 <=? n) && (n <=? 57)) || ((97 <=? n) && (n <=? 102)))%nat.

Fixpoint all_lower_hex (s : string) : bool :=
  match s with
  | EmptyString => true
  | String c rest => lower_hex c && all_lower_hex rest
  end.

(** The slice expression [l[lo:hi]]. *)
Definition slice {A : Type} (lo hi : nat) (l : list A) : list A :=
  firstn (hi - lo) (skipn lo l).

(** The assignment [l[i] = x] for an index inside the slice. *)
Fixpoint assign {A : Type} (i : nat) (x : A) (l : list A) : list A :=
  match l, i with
  | [], _ => []
  | _ :: rest, O => x :: rest
  | y :: rest, S j => y :: assign j x rest
  end.

(** *** getNonce *)

Definition getNonce : M string :=
  r <- rand_Read 16 ;;
  let buf := fst r in
  match snd r with
  | Some err => Println err
  | None => ret tt
  end ;;;
  let buf := assign 6 (byte_or (byte_and (nth 6 buf x00) x0f) x40) buf in
  ret (hex (slice 0 4 buf) ++ "-" ++ hex (slice 4 6 buf) ++ "-" ++ hex (slice 6 8 buf)
       ++ "-" ++ hex (slice 8 10 buf) ++ "-" ++ hex (skipn 10 buf)).

(** *** Logout *)

Definition Logout : M unit :=
  modify (set_logged false) ;;;
  err <- ipc.CloseSocket ;;
  match err with
  | Some e => panic e
  | None => ret tt
  end.

Section Client.

(** The text layer of [encoding/json]: [json.Marshal] renders a value
    tree, [json.Unmarshal] first parses text into one.  The client's
    behaviour is stated for every such pair of functions. *)
Variable json_Marshal : json -> error + string.
Variable json_Parse : string -> error + json.

(** [json.Unmarshal(respData, &handshakeResp)]: only whether it fails
    matters, the decoded value is never used. *)
Variable Unmarshal_HandshakeResponse : string -> error + HandshakeResponse.

(** [json.Unmarshal([]byte(resp), &response)] *)
Definition Unmarshal_Response (resp : string) : error + Response :=
  match json_Parse resp with
  | inl err => inl err
  | inr doc => decode_Response doc
  end.

(** The body of [if !logged { ... }] in [Login]: [Some err] is an early
    [return err], [None] falls through to the statements after the
    block. *)
Definition handshake (clientid : string) : M (option error) :=
  match json_Marshal (Handshake_json {| V := "1"; ClientId := clientid |}) with
  | inl err => ret (Some err)
  | inr payload =>
      err <- ipc.OpenSocket ;;
      match err with
      | Some err => ret (Some err)
      | None =>
          r <- ipc.Send 0 payload ;;
          match r with
          | inl err => ret (Some (Wrapped "failed to send handshake" err))
          | inr resp =>
              match Unmarshal_Response resp with
              | inl err => ret (Some (Wrapped "failed to parse response" err))
              | inr response =>
                  if (Event response =? "ERROR")%string
                  then ret (Some (DiscordError (Data response)))
                  else
                    match json_Marshal (Data response) with
                    | inr respData =>
                        match Unmarshal_HandshakeResponse respData with
                        | inl err =>
                            ret (Some (Wrapped "failed to parse handshake response" err))
                        | inr _ => ret nil_error
                        end
                    | inl _ => ret nil_error
                    end
              end
          end
      end
  end.

Definition Login (clientid : string) : M (option error) :=
  l <- get logged ;;
  early <- (if negb l then handshake clientid else ret nil_error) ;;
  match early with
  | Some err => ret (Some err)
  | None => modify (set_logged true) ;;; ret nil_error
  end.

Definition SetActivity (activity : PayloadActivity) : M (option error) :=
  l <- get logged ;;
  if negb l then ret nil_error
  else
    p <- get pid ;;
    nonce <- getNonce ;;
    match json_Marshal (Frame_json {| Cmd := "SET_ACTIVITY";
                                      Args_ := {| Pid := p; Activity := Some activity |};
                                      Nonce := nonce |}) with
    | inl err => ret (Some err)
    | inr payload =>
        r <- ipc.Send 1 payload ;;
        match r with
        | inl err => ret (Some (Wrapped "failed to send activity" err))
        | inr resp =>
            match Unmarshal_Response resp with
            | inl err => ret (Some (Wrapped "failed to parse response" err))
            | inr response =>
                if (Event response =? "ERROR")%string
                then ret (Some (DiscordError (Data response)))
                else ret nil_error
            end
        end
    end.

End Client.

(** The request document of an activity update: the [Frame] literal that
    [SetActivity] marshals. *)
Definition request (w : World) (activity : PayloadActivity) (nonce : string) : json :=
  Frame_json {| Cmd := "SET_ACTIVITY";
                Args_ := {| Pid := pid w; Activity := Some activity |};
                Nonce := nonce |}.

(** ** A concrete text layer

    A compact JSON writer and a recursive-descent reader, used to run the
    client on concrete exchanges; the theorems about the client are
    stated for every [json_Marshal] and [json_Parse] and do not depend
    on them.  The writer escapes as [json.Marshal] does (the quote and
    the backslash, control characters, and [<], [>], [&], U+2028 and
    U+2029 as [\u] escapes); the reader accepts the JSON grammar.  What
    they leave out: text is taken to be valid UTF-8 (Go replaces an
    invalid byte by U+FFFD); a number with a fraction or an exponent is
    kept as written (Go reads it into a float64 and prints that back in
    its shortest form), [-0] is read as 0, and an integer is kept exact
    (in Go one that passes through an [any] is a float64 and is exact up
    to 2^53 only). *)

Module Text.

Definition dquote : ascii := "034"%char.
Definition backslash : ascii := "092"%char.

Definition hex_lower (n : nat) : ascii :=
  if (n <? 10)%nat then ascii_of_nat (48 + n) else ascii_of_nat (87 + n).

(** The escape [\u00XX] of a byte. *)
Definition u00 (c : ascii) : string :=
  String backslash
    (String "u" (String "0" (String "0"
       (String (hex_lower (nat_of_ascii c / 16))
          (String (hex_lower (nat_of_ascii c mod 16)) EmptyString))))).

Definition escape_byte (c : ascii) : string :=
  if ((c =? dquote) || (c =? backslash))%char then String backslash (String c EmptyString)
  else if (c =? "008")%char then String backslash "b"
  else if (c =? "012")%char then String backslash "f"
  else if (c =? "010")%char then String backslash "n"
  else if (c =? "013")%char then String backslash "r"
  else if (c =? "009")%char then String backslash "t"
  else if ((nat_of_ascii c <? 32)%nat || (c =? "<") || (c =? ">") || (c =? "&"))%char
       then u00 c
  else String c EmptyString.

(** The bytes 226 128 168 and 226 128 169 are U+2028 and U+2029. *)
Fixpoint escape (s : string) : string :=
  match s with
  | EmptyString => EmptyString
  | String c rest =>
      match rest with
      | String c1 (String c2 rest') =>
          if ((c =? "226") && (c1 =? "128") && ((c2 =? "168") || (c2 =? "169")))%char
          then String backslash
                 ("u202" ++ String (if (c2 =? "168")%char then "8" else "9")%char
                              (escape rest'))
          else escape_byte c ++ escape rest
      | _ => escape_byte c ++ escape rest
      end
  end.

Definition quote (s : string) : string :=
  String dquote (escape s ++ String dquote EmptyString).

Fixpoint write (j : json) : string :=
  match j with
  | JNull => "null"
  | JBool true => "true"
  | JBool false => "false"
  | JNum n => NilZero.string_of_int (Z.to_int n)
  | JFloat literal => literal
  | JStr s => quote s
  | JArr items =>
      "[" ++ (fix go (l : list json) : string :=
                match l with
                | [] => EmptyString
                | x :: rest =>
                    write x ++ match rest with [] => EmptyString | _ :: _ => "," ++ go rest end
                end) items ++ "]"
  | JObj members =>
      "{" ++ (fix go (l : list (string * json)) : string :=
                match l with
                | [] => EmptyString
                | (k, v) :: rest =>
                    quote k ++ ":" ++ write v
                    ++ match rest with [] => EmptyString | _ :: _ => "," ++ go rest end
                end) members ++ "}"
  end.

Definition Marshal (j : json) : error + string := inr (write j).

Definition is_space (c : ascii) : bool :=
  ((c =? " ") || (c =? "009") || (c =? "010") || (c =? "013"))%char.

Definition is_digit (c : ascii) : bool :=
  let n := nat_of_ascii c in ((48 <=? n) && (n <=? 57))%nat.

Fixpoint skip_space (s : string) : string :=
  match s with
  | String c rest => if is_space c then skip_space rest else s
  | EmptyString => s
  end.

Definition hex_value (c : ascii) : option N :=
  let n := N_of_ascii c in
  if ((48 <=? n) && (n <=? 57))%N then Some (n - 48)%N
  else if ((97 <=? n) && (n <=? 102))%N then Some (n - 87)%N
  else if ((65 <=? n) && (n <=? 70))%N then Some (n - 55)%N
  else None.

(** The number written by four hexadecimal digits. *)
Definition hex4 (h1 h2 h3 h4 : ascii) : option N :=
  match hex_value h1, hex_value h2, hex_value h3, hex_value h4 with
  | Some a, Some b, Some c, Some d => Some (4096 * a + 256 * b + 16 * c + d)%N
  | _, _, _, _ => None
  end.

(** The UTF-8 encoding of a code point. *)
Definition utf8 (n : N) : string :=
  let byte (k : N) := ascii_of_N k in
  if (n <? 128)%N then String (byte n) EmptyString
  else if (n <? 2048)%N then
    String (byte (192 + n / 64)%N) (String (byte (128 + n mod 64)%N) EmptyString)
  else if (n <? 65536)%N then
    String (byte (224 + n / 4096)%N)
      (String (byte (128 + (n / 64) mod 64)%N)
         (String (byte (128 + n mod 64)%N) EmptyString))
  else
    String (byte (240 + n / 262144)%N)
      (String (byte (128 + (n / 4096) mod 64)%N)
         (String (byte (128 + (n / 64) mod 64)%N)
            (String (byte (128 + n mod 64)%N) EmptyString))).

Definition is_surrogate (n : N) : bool := ((55296 <=? n) && (n <? 57344))%N.

(** [utf16.DecodeRune]: the code point of a surrogate pair, U+FFFD for
    anything else. *)
Definition DecodeRune (hi lo : N) : N :=
  if ((55296 <=? hi) && (hi <? 56320) && (56320 <=? lo) && (lo <? 57344))%N
  then ((hi - 55296) * 1024 + (lo - 56320) + 65536)%N
  else 65533%N.

(** The characters of a string literal after its opening quote.  A
    control character must be escaped; a [\u] escape that is half of a
    surrogate pair is joined with the other half when that follows and is
    U+FFFD otherwise. *)
Fixpoint read_chars (s : string) : option (string * string) :=
  match s with
  | EmptyString => None
  | String c rest =>
      if (c =? dquote)%char then Some (EmptyString, rest)
      else if (nat_of_ascii c <? 32)%nat then None
      else if (c =? backslash)%char then
        match rest with
        | String e rest' =>
            let plain (x : ascii) :=
              match read_chars rest' with
              | Some (body, tail) => Some (String x body, tail)
              | None => None
              end in
            if (e =? dquote)%char then plain dquote
            else if (e =? backslash)%char then plain backslash
            else if (e =? "/")%char then plain "/"%char
            else if (e =? "b")%char then plain "008"%char
            else if (e =? "f")%char then plain "012"%char
            else if (e =? "n")%char then plain "010"%char
            else if (e =? "r")%char then plain "013"%char
            else if (e =? "t")%char then plain "009"%char
            else if (e =? "u")%char then
              match rest' with
              | String h1 (String h2 (String h3 (String h4 tail))) =>
                  match hex4 h1 h2 h3 h4 with
                  | None => None
                  | Some rr =>
                      let single (n : N) :=
                        match read_chars tail with
                        | Some (body, final) => Some (utf8 n ++ body, final)
                        | None => None
                        end in
                      if is_surrogate rr then
                        match tail with
                        | String b (String u (String g1 (String g2 (String g3
                            (String g4 tail'))))) =>
                            match (if ((b =? backslash) && (u =? "u"))%char
                                   then hex4 g1 g2 g3 g4 else None) with
                            | Some rr1 =>
                                if (DecodeRune rr rr1 =? 65533)%N then single 65533%N
                                else
                                  match read_chars tail' with
                                  | Some (body, final) =>
                                      Some (utf8 (DecodeRune rr rr1) ++ body, final)
                                  | None => None
                                  end
                            | None => single 65533%N
                            end
                        | _ => single 65533%N
                        end
                      else single rr
                  end
              | _ => None
              end
            else None
        | EmptyString => None
        end
      else
        match read_chars rest with
        | Some (body, tail) => Some (String c body, tail)
        | None => None
        end
  end.

Fixpoint read_digits (s : string) (acc : Z) : Z * string :=
  match s with
  | String c rest =>
      if is_digit c then read_digits rest (10 * acc + Z.of_nat (nat_of_ascii c - 48))
      else (acc, s)
  | EmptyString => (acc, s)
  end.

(** The digits a text starts with, and what follows them. *)
Fixpoint take_digits (s : string) : string * string :=
  match s with
  | String c rest =>
      if is_digit c then let (digits, tail) := take_digits rest in (String c digits, tail)
      else (EmptyString, s)
  | EmptyString => (EmptyString, s)
  end.

(** A fraction [.digits], when there is one. *)
Definition read_fraction (s : string) : option (string * string) :=
  match s with
  | String "." rest =>
      match take_digits rest with
      | (EmptyString, _) => None
      | (digits, tail) => Some (String "." digits, tail)
      end
  | _ => Some (EmptyString, s)
  end.

(** An exponent [e], [e+] or [e-] (or with [E]) and digits, when there is
    one. *)
Definition read_exponent (s : string) : option (string * string) :=
  match s with
  | String e rest =>
      if ((e =? "e") || (e =? "E"))%char then
        let (sign, rest') :=
          match rest with
          | String x more =>
              if ((x =? "+") || (x =? "-"))%char then (String x EmptyString, more)
              else (EmptyString, rest)
          | EmptyString => (EmptyString, rest)
          end in
        match take_digits rest' with
        | (EmptyString, _) => None
        | (digits, tail) => Some (String e (sign ++ digits), tail)
        end
      else Some (EmptyString, s)
  | EmptyString => Some (EmptyString, s)
  end.

(** A number: an optional minus sign, digits without a leading zero, an
    optional fraction and an optional exponent. *)
Definition read_number (s : string) : option (json * string) :=
  let (minus, s1) :=
    match s with
    | String "-" rest => (true, rest)
    | _ => (false, s)
    end in
  match take_digits s1 with
  | (EmptyString, _) => None
  | (String "0" (String _ _), _) => None
  | (whole, s2) =>
      match read_fraction s2 with
      | None => None
      | Some (fraction, s3) =>
          match read_exponent s3 with
          | None => None
          | Some (exponent, s4) =>
              if ((fraction =? EmptyString) && (exponent =? EmptyString))%string then
                let n := fst (read_digits whole 0) in
                Some (JNum (if minus then - n else n), s4)
              else
                Some (JFloat ((if minus then "-" else EmptyString)
                              ++ whole ++ fraction ++ exponent), s4)
          end
      end
  end.

Fixpoint read_value (fuel : nat) (s : string) : option (json * string) :=
  match fuel with
  | O => None
  | S fuel =>
      match skip_space s with
      | String "n" (String "u" (String "l" (String "l" rest))) => Some (JNull, rest)
      | String "t" (String "r" (String "u" (String "e" rest))) => Some (JBool true, rest)
      | String "f" (String "a" (String "l" (String "s" (String "e" rest)))) =>
          Some (JBool false, rest)
      | String "[" rest =>
          match skip_space rest with
          | String "]" tail => Some (JArr [], tail)
          | _ =>
              match read_items fuel rest with
              | Some (items, tail) => Some (JArr items, tail)
              | None => None
              end
          end
      | String "{" rest =>
          match skip_space rest with
          | String "}" tail => Some (JObj [], tail)
          | _ =>
              match read_members fuel rest with
              | Some (members, tail) => Some (JObj members, tail)
              | None => None
              end
          end
      | String c rest =>
          if (c =? dquote)%char then
            match read_chars rest with
            | Some (body, tail) => Some (JStr body, tail)
            | None => None
            end
          else read_number (String c rest)
      | EmptyString => None
      end
  end
with read_items (fuel : nat) (s : string) : option (list json * string) :=
  match fuel with
  | O => None
  | S fuel =>
      match read_value fuel s with
      | Some (x, tail) =>
          match skip_space tail with
          | String "," tail' =>
              match read_items fuel tail' with
              | Some (xs, tail'') => Some (x :: xs, tail'')
              | None => None
              end
          | String "]" tail' => Some ([x], tail')
          | _ => None
          end
      | None => None
      end
  end
with read_members (fuel : nat) (s : string) : option (list (string * json) * string) :=
  match fuel with
  | O => None
  | S fuel =>
      match skip_space s with
      | String c rest =>
          if (c =? dquote)%char then
            match read_chars rest with
            | Some (k, tail) =>
                match skip_space tail with
                | String ":" tail' =>
                    match read_value fuel tail' with
                    | Some (v, tail'') =>
                        match skip_space tail'' with
                        | String "," more =>
                            match read_members fuel more with
                            | Some (ms, final) => Some ((k, v) :: ms, final)
                            | None => None
                            end
                        | String "}" final => Some ([(k, v)], final)
                        | _ => None
                        end
                    | None => None
                    end
                | _ => None
                end
            | None => None
            end
          else None
      | EmptyString => None
      end
  end.

(** Readers for the fields of the handshake metadata: [None] is a type
    error; [null] leaves a field as it was. *)
Definition as_string (v : json) (old : string) : option string :=
  match v with
  | JStr s => Some s
  | JNull => Some old
  | _ => None
  end.

Definition as_int (v : json) (old : Z) : option Z :=
  match v with
  | JNum n => if (- 2 ^ 63 <=? n) && (n <? 2 ^ 63) then Some n else None
  | JNull => Some old
  | _ => None
  end.

Definition as_bool (v : json) (old : bool) : option bool :=
  match v with
  | JBool b => Some b
  | JNull => Some old
  | _ => None
  end.

Definition fill {R : Type} (set : R -> string -> json -> option R) (doc : json) (old : R)
  : option R :=
  match doc with
  | JNull => Some old
  | JObj members =>
      fold_left (fun acc kv =>
                   match acc with
                   | Some r => set r (fold_name (fst kv)) (snd kv)
                   | None => None
                   end) members (Some old)
  | _ => None
  end.

Definition Config_set (c : Config) (name : string) (v : json) : option Config :=
  if (name =? "cdn_host")%string then
    option_map (fun s => {| CDNHost := s; APIEndpoint := APIEndpoint c;
                            Environment := Environment c |}) (as_string v (CDNHost c))
  else if (name =? "api_endpoint")%string then
    option_map (fun s => {| CDNHost := CDNHost c; APIEndpoint := s;
                            Environment := Environment c |}) (as_string v (APIEndpoint c))
  else if (name =? "environment")%string then
    option_map (fun s => {| CDNHost := CDNHost c; APIEndpoint := APIEndpoint c;
                            Environment := s |}) (as_string v (Environment c))
  else Some c.

Definition User_set (u : User) (name : string) (v : json) : option User :=
  if (name =? "id")%string then
    option_map (fun s => {| UserID := s; Username := Username u;
                            Discriminator := Discriminator u; Avatar := Avatar u;
                            Bot := Bot u; Flags := Flags u; Premium := Premium u |})
               (as_string v (UserID u))
  else if (name =? "username")%string then
    option_map (fun s => {| UserID := UserID u; Username := s;
                            Discriminator := Discriminator u; Avatar := Avatar u;
                            Bot := Bot u; Flags := Flags u; Premium := Premium u |})
               (as_string v (Username u))
  else if (name =? "discriminator")%string then
    option_map (fun s => {| UserID := UserID u; Username := Username u;
                            Discriminator := s; Avatar := Avatar u;
                            Bot := Bot u; Flags := Flags u; Premium := Premium u |})
               (as_string v (Discriminator u))
  else if (name =? "avatar")%string then
    option_map (fun s => {| UserID := UserID u; Username := Username u;
                            Discriminator := Discriminator u; Avatar := s;
                            Bot := Bot u; Flags := Flags u; Premium := Premium u |})
               (as_string v (Avatar u))
  else if (name =? "bot")%string then
    option_map (fun b => {| UserID := UserID u; Username := Username u;
                            Discriminator := Discriminator u; Avatar := Avatar u;
                            Bot := b; Flags := Flags u; Premium := Premium u |})
               (as_bool v (Bot u))
  else if (name =? "flags")%string then
    option_map (fun n => {| UserID := UserID u; Username := Username u;
                            Discriminator := Discriminator u; Avatar := Avatar u;
                            Bot := Bot u; Flags := n; Premium := Premium u |})
               (as_int v (Flags u))
  else if (name =? "premium_type")%string then
    option_map (fun n => {| UserID := UserID u; Username := Username u;
                            Discriminator := Discriminator u; Avatar := Avatar u;
                            Bot := Bot u; Flags := Flags u; Premium := n |})
               (as_int v (Premium u))
  else Some u.

Definition HandshakeResponse_set (h : HandshakeResponse) (name : string) (v : json)
  : option HandshakeResponse :=
  if (name =? "v")%string then
    option_map (fun n => {| Version := n; Config_ := Config_ h; User_ := User_ h |})
               (as_int v (Version h))
  else if (name =? "config")%string then
    option_map (fun c => {| Version := Version h; Config_ := c; User_ := User_ h |})
               (fill Config_set v (Config_ h))
  else if (name =? "user")%string then
    option_map (fun u => {| Version := Version h; Config_ := Config_ h; User_ := u |})
               (fill User_set v (User_ h))
  else Some h.

Definition HandshakeResponse_zero : HandshakeResponse :=
  {| Version := 0;
     Config_ := {| CDNHost := EmptyString; APIEndpoint := EmptyString;
                   Environment := EmptyString |};
     User_ := {| UserID := EmptyString; Username := EmptyString;
                 Discriminator := EmptyString; Avatar := EmptyString;
                 Bot := false; Flags := 0; Premium := PremiumNone |} |}.

Definition Parse (s : string) : error + json :=
  match read_value (2 * String.length s + 2) s with
  | Some (doc, tail) =>
      match skip_space tail with
      | EmptyString => inr doc
      | _ => inl (JSONError "invalid character after top-level value")
      end
  | None => inl (JSONError "invalid JSON text")
  end.


Definition Unmarshal_HandshakeResponse (respData : string) : error + HandshakeResponse :=
  match Parse respData with
  | inl err => inl err
  | inr doc =>
      match fill HandshakeResponse_set doc HandshakeResponse_zero with
      | Some h => inr h
      | None =>
          inl (JSONError "cannot unmarshal into Go value of type client.HandshakeResponse")
      end
  end.

End Text.

(** ** Concrete exchanges *)

Module Scenario.

(** The client with the concrete text layer. *)
Definition Login : string -> M (option error) :=
  Login Text.Marshal Text.Parse Text.Unmarshal_HandshakeResponse.
Definition SetActivity : PayloadActivity -> M (option error) :=
  SetActivity Text.Marshal Text.Parse.

(** What the companion process answers, as frames on the wire. *)
Definition reply (op : Z) (doc : json) : list byte :=
  Codec.encode op (list_byte_of_string (Text.write doc)).

Definition handshake_ack : json :=
  JObj [("cmd", JStr "DISPATCH");
        ("data", JObj [("v", JNum 1); ("config", JObj []); ("user", JObj [])])].

Definition activity_ack : json :=
  JObj [("cmd", JStr "SET_ACTIVITY"); ("data", JObj [])].

Definition rejection : json :=
  JObj [("evt", JStr "ERROR"); ("data", JStr "invalid client id")].

Definition dice : list byte :=
  [x01; x23; x45; x67; x89; xab; xcd; xef; xfe; xdc; xba; x98; x76; x54; x32; x10].

(** What the random source holds at the start: enough for two nonces. *)
Definition source : list byte :=
  [x01; x23; x45; x67; x89; xab; xcd; xef; xfe; xdc; xba; x98; x76; x54; x32; x10;
   x10; x32; x54; x76; x98; xba; xdc; xfe; xef; xcd; xab; x89; x67; x45; x23; x01].

(** Nothing logged in, no connection yet, the companion listening on
    endpoint 0 and about to deliver [replies]. *)
Definition start (replies : list byte) : World :=
  {| logged := false; socket := None; pid := 4242; entropy := source;
     rand_fault := IOError "getrandom: input/output error"; rand_fatal := true;
     listening := [0%nat]; inbound := replies; outbound := [];
     write_fault := None; close_fault := None; stdout := [] |}.

(** A session that is logged in over an open connection. *)
Definition ready (replies : list byte) : World :=
  set_socket (Some 0%nat) (set_logged true (start replies)).

(** No companion process is listening on any endpoint. *)
Definition nobody_listening : World :=
  {| logged := false; socket := None; pid := 4242; entropy := source;
     rand_fault := IOError "getrandom: input/output error"; rand_fatal := true;
     listening := []; inbound := []; outbound := [];
     write_fault := None; close_fault := None; stdout := [] |}.

(** The companion accepts the connection but every write is refused. *)
Definition broken_pipe : World :=
  {| logged := false; socket := None; pid := 4242; entropy := source;
     rand_fault := IOError "getrandom: input/output error"; rand_fatal := true;
     listening := [3%nat]; inbound := []; outbound := [];
     write_fault := Some "write: broken pipe"; close_fault := None; stdout := [] |}.

(** A handshake reply whose [data] is not handshake metadata. *)
Definition odd_ack : json :=
  JObj [("cmd", JStr "DISPATCH"); ("data", JStr "hello")].

(** An open connection whose close the OS will report as failed. *)
Definition stuck : World :=
  {| logged := true; socket := Some 0%nat; pid := 4242; entropy := source;
     rand_fault := IOError "getrandom: input/output error"; rand_fatal := true;
     listening := [0%nat]; inbound := []; outbound := [];
     write_fault := None; close_fault := Some "close: input/output error"; stdout := [] |}.

Definition no_assets : PayloadAssets :=
  {| LargeImage := EmptyString; LargeText := EmptyString;
     SmallImage := EmptyString; SmallText := EmptyString |}.

(** The zero value [PayloadActivity{}]. *)
Definition zero_activity : PayloadActivity :=
  {| Type_ := 0; Details := EmptyString; State := EmptyString; Assets := no_assets;
     Party := None; Timestamps := None; Secrets := None; Buttons := [] |}.

(** The activity that the example program sends. *)
Definition playing : PayloadActivity :=
  {| Type_ := ActivityType.Playing; Details := "Playing Minecraft"; State := "In Game";
     Assets := no_assets; Party := None;
     Timestamps := Some {| Start := Some 1700000000; End_ := None |};
     Secrets := None; Buttons := [] |}.

(** A session logged in over an open connection whose random source is
    used up, in a program built with Go 1.24 or later. *)
Definition dry (replies : list byte) : World := set_entropy [] (ready replies).

(** The same in a program built with an earlier Go, where [rand.Read]
    returns the failure. *)
Definition dry_returning (replies : list byte) : World :=
  {| logged := true; socket := Some 0%nat; pid := 4242; entropy := [];
     rand_fault := IOError "getrandom: input/output error"; rand_fatal := false;
     listening := [0%nat]; inbound := replies; outbound := [];
     write_fault := None; close_fault := None; stdout := [] |}.

(** The world after a login that succeeded and an activity update whose
    reply broke off after three bytes: the session is still logged in and
    the connection is gone. *)
Definition hung_up : World :=
  snd (SetActivity playing
         (snd (Login "abc123" (start (reply 0 handshake_ack ++ [x01; x00; x00]))))).

End Scenario.

(** ** The bytes behind a nonce *)

(** The buffer [getNonce] holds after [rand.Read]: sixteen bytes, the
    ones the source delivered followed by the zeroes left in place. *)
Definition rand_buffer (source : list byte) : list byte :=
  (firstn 16 source ++ repeat x00 (16 - List.length (firstn 16 source)))%list.

(** The buffer after the assignment to [buf[6]]. *)
Definition nonce_bytes (source : list byte) : list byte :=
  let buf := rand_buffer source in
  assign 6 (byte_or (byte_and (nth 6 buf x00) x0f) x40) buf.

(** The [Sprintf] of [getNonce] applied to a buffer. *)
Definition nonce_text (buf : list byte) : string :=
  hex (slice 0 4 buf) ++ "-" ++ hex (slice 4 6 buf) ++ "-" ++ hex (slice 6 8 buf)
  ++ "-" ++ hex (slice 8 10 buf) ++ "-" ++ hex (skipn 10 buf).

(** Reading two [%x] digits back into the byte they print. *)
Definition unhex_digit (c : ascii) : Z :=
  let n := Z.of_nat (nat_of_ascii c) in
  if n <? 58 then n - 48 else n - 87.

Definition unhex_byte (s : string) : byte :=
  match s with
  | String h (String l _) => Codec.byte_of_Z (16 * unhex_digit h + unhex_digit l)
  | _ => x00
  end.


(** ** The example program *)

(** The activity literal of [main], for the timestamp it computed. *)
Definition main_activity (timestamp : Z) : PayloadActivity :=
  {| Type_ := ActivityType.Playing;
     Details := "Playing Minecraft";
     State := "In Game";
     Assets := {| LargeImage := EmptyString; LargeText := EmptyString;
                  SmallImage := EmptyString; SmallText := EmptyString |};
     Party := None;
     Timestamps := Some {| Start := Some timestamp; End_ := None |};
     Secrets := None;
     Buttons := [] |}.

Section Program.

Variable json_Marshal : json -> error + string.
Variable json_Parse : string -> error + json.
Variable Unmarshal_HandshakeResponse : string -> error + HandshakeResponse.

(** [main] of the example program.  [now] is what [time.Now().Unix()]
    reads when it is reached; the conversion to [uint64] wraps.  The line
    the program prints is its result here; the ten-second sleep that
    follows has no counterpart. *)
Definition main (now : Z) : M string :=
  err <- Login json_Marshal json_Parse Unmarshal_HandshakeResponse "your-client-id" ;;
  match err with
  | Some e => panic e
  | None =>
      let timestamp := now mod 2 ^ 64 in
      err <- SetActivity json_Marshal json_Parse (main_activity timestamp) ;;
      match err with
      | Some e => panic e
      | None => ret "Sleeping..."
      end
  end.

End Program.

(** * The Modrinth client (pkg/modrinth/modrinth.go) *)

Module Modrinth.

(** ** Library functions the client builds its requests with *)

(** [strings.TrimPrefix(s, prefix)] *)
Fixpoint strip_prefix (prefix s : string) : option string :=
  match prefix, s with
  | EmptyString, _ => Some s
  | String p prefix', String c s' => if (p =? c)%char then strip_prefix prefix' s' else None
  | String _ _, EmptyString => None
  end.

Definition TrimPrefix (s prefix : string) : string :=
  match strip_prefix prefix s with
  | Some rest => rest
  | None => s
  end.

(** [strings.Split(s, sep)] for a separator of one character: the pieces
    between the separators, one more piece than there are separators. *)
Fixpoint Split (s : string) (sep : ascii) : list string :=
  match s with
  | EmptyString => [EmptyString]
  | String c rest =>
      if (c =? sep)%char then EmptyString :: Split rest sep
      else
        match Split rest sep with
        | piece :: pieces => String c piece :: pieces
        | [] => [String c EmptyString]
        end
  end.

(** [url.QueryEscape]: letters, digits and [-_.~] stand for themselves, a
    space becomes [+], every other byte becomes [%] and two upper-case
    hexadecimal digits. *)
Definition unreserved (c : ascii) : bool :=
  let n := nat_of_ascii c in
  (((97 <=? n) && (n <=? 122)) || ((65 <=? n) && (n <=? 90)) || ((48 <=? n) && (n <=? 57)))%nat
  || (c =? "-")%char || (c =? "_")%char || (c =? ".")%char || (c =? "~")%char.

Definition upperhex (n : nat) : ascii :=
  if (n <? 10)%nat then ascii_of_nat (48 + n) else ascii_of_nat (55 + n).

Definition escape_byte (c : ascii) : string :=
  if unreserved c then String c EmptyString
  else if (c =? " ")%char then "+"
  else String "%" (String (upperhex (nat_of_ascii c / 16))
                     (String (upperhex (nat_of_ascii c mod 16)) EmptyString)).

Fixpoint QueryEscape (s : string) : string :=
  match s with
  | EmptyString => EmptyString
  | String c rest => escape_byte c ++ QueryEscape rest
  end.

(** How often a character occurs in a string. *)
Fixpoint count_char (c : ascii) (s : string) : nat :=
  match s with
  | EmptyString => 0%nat
  | String x rest => ((if (x =? c)%char then 1 else 0) + count_char c rest)%nat
  end.

(** The characters an escaped string is made of. *)
Definition escaped_char (c : ascii) : bool :=
  unreserved c || (c =? "+")%char || (c =? "%")%char.

(** [fmt.Sprint] of an integer and [fmt.Sprintf("%t", b)]. *)
Definition Sprint_int (n : Z) : string := NilZero.string_of_int (Z.to_int n).
Definition Sprint_bool (b : bool) : string := if b then "true" else "false".

(** A Go map with string keys, as its entries; a key occurs once. *)
Fixpoint map_get {A : Type} (m : list (string * A)) (key : string) : option A :=
  match m with
  | [] => None
  | (k, v) :: rest => if (k =? key)%string then Some v else map_get rest key
  end.

(** The assignment [m[key] = v]. *)
Fixpoint map_set {A : Type} (m : list (string * A)) (key : string) (v : A)
  : list (string * A) :=
  match m with
  | [] => [(key, v)]
  | (k, old) :: rest =>
      if (k =? key)%string then (k, v) :: rest else (k, old) :: map_set rest key v
  end.

(** Entries in ascending order of their keys (bytewise, as Go compares
    strings), which is the order [url.Values.Encode] and [json.Marshal]
    of a map emit them in. *)
Fixpoint insert_by_key {A : Type} (kv : string * A) (sorted : list (string * A))
  : list (string * A) :=
  match sorted with
  | [] => [kv]
  | x :: rest =>
      if String.leb (fst kv) (fst x) then kv :: sorted else x :: insert_by_key kv rest
  end.

Definition sort_by_key {A : Type} (m : list (string * A)) : list (string * A) :=
  fold_right insert_by_key [] m.

(** [url.Values]: each key with the values added under it, in the order
    they were added. *)
Definition Values : Type := list (string * list string).

(** [v.Add(key, value)] *)
Definition Values_Add (v : Values) (key value : string) : Values :=
  match map_get v key with
  | Some vs => map_set v key (vs ++ [value])%list
  | None => map_set v key [value]
  end.

(** [v.Encode()]: keys in ascending order, each value as
    [key=value], both escaped, an [&] before every pair but the first. *)
Definition encode_pair (key : string) (buf value : string) : string :=
  (if (buf =? EmptyString)%string then buf else buf ++ "&")
  ++ QueryEscape key ++ "=" ++ QueryEscape value.

(** One [key=value] of an encoded query. *)
Definition pair_text (kv : string * string) : string :=
  QueryEscape (fst kv) ++ "=" ++ QueryEscape (snd kv).

Definition Values_Encode (v : Values) : string :=
  fold_left (fun buf kv => fold_left (encode_pair (fst kv)) (snd kv) buf)
            (sort_by_key v) EmptyString.

(** A [[]string] as [json.Marshal] sees it: [None] is the nil slice. *)
Definition strings_json (l : option (list string)) : json :=
  match l with
  | None => JNull
  | Some items => JArr (map JStr items)
  end.

(** A [map[string]any] literal as [json.Marshal] sees it: an object with
    its members in ascending order of their keys. *)
Definition map_json (entries : list (string * json)) : json :=
  JObj (sort_by_key entries).

(** ** Errors of the client *)

(** [ModrinthAPIError] is declared outside this source tree; its three
    fields are the ones [doJSON] fills.  [ErrorString] is [errors.New];
    [Underlying] is an error handed up from [encoding/json] or
    [net/http]. *)
Inductive api_error : Type :=
| ModrinthAPIError (URL : string) (Status : Z) (Body : string)
| ErrorString (text : string)
| Underlying (e : error).

(** ** Options of the calls

    Both option structs are declared outside this source tree; the fields
    are the ones the calls read, with the types their uses require. *)

Record SearchProjectOptions : Type := {
  Query : string;
  Filter : string;
  Index : string;
  Offset : Z;
  Limit : Z;
  Facets : string
}.

Record GetProjectVersionsOptions : Type := {
  Loaders : list string;
  GameVersions : list string;
  Featured : option bool     (* *bool *)
}.

(** A result type of the API with the zero value its variable starts
    from and what [json.NewDecoder(resp.Body).Decode] makes of a body: the
    value left in the variable and the error returned. *)
Record Result (T : Type) : Type := {
  zero : T;
  Decode : string -> T * option error
}.
Arguments zero {T} r.
Arguments Decode {T} r body.

Section Client.

Variable Context : Type.   (* context.Context *)
Variable Net : Type.       (* the network and the servers behind it *)

(** [json.Marshal] as text and [textproto.CanonicalMIMEHeaderKey]. *)
Variable json_Marshal : json -> error + string.
Variable CanonicalHeaderKey : string -> string.

(** [http.NewRequestWithContext] on a method and the text of a URL: the
    error with which it refuses them, or what the request is made with:
    its method ([GET] for an empty one) and its URL, which is the text as
    [url.Parse] read it and [String] prints it back, not the text
    itself. *)
Variable NewRequestWithContext : string -> string -> error + (string * string).

(** The order in which a [for k, v := range m] visits the entries of a
    map.  The language leaves it open; it is some permutation of the
    entries, taken here from the state of the run. *)
Variable range_order : Net -> list (string * string) -> list (string * string).

Record Request : Type := {
  Ctx : Context;
  Method : string;
  RequestURL : string;     (* req.URL.String() *)
  Header : list (string * string);
  RequestBody : option string
}.

Record HttpResponse : Type := {
  StatusCode : Z;
  ResponseBody : string;   (* what io.ReadAll(resp.Body) yields *)
  FinalURL : string        (* resp.Request.URL.String() *)
}.

(** [*http.Client]: what [Do] answers, and what it does to the network. *)
Definition HTTPClient : Type := Request -> Net -> (error + HttpResponse) * Net.

Variable DefaultClient : HTTPClient.

Record ModrinthV2Client : Type := {
  baseURL : string;
  headers : list (string * string);
  httpClient : HTTPClient
}.

(** A functional option mutates the client it is applied to. *)
Definition ModrinthClientOption : Type := ModrinthV2Client -> ModrinthV2Client.

Definition WithBaseURL (url : string) : ModrinthClientOption :=
  fun c => {| baseURL := url; headers := headers c; httpClient := httpClient c |}.

Definition WithHeaders (extra : list (string * string)) : ModrinthClientOption :=
  fun c => {| baseURL := baseURL c;
              headers := fold_left (fun m kv => map_set m (fst kv) (snd kv)) extra (headers c);
              httpClient := httpClient c |}.

Definition WithHTTPClient (client : HTTPClient) : ModrinthClientOption :=
  fun c => {| baseURL := baseURL c; headers := headers c; httpClient := client |}.

Definition NewModrinthV2Client (options : list ModrinthClientOption) : ModrinthV2Client :=
  fold_left (fun c opt => opt c) options
            {| baseURL := "https://api.modrinth.com"; headers := []; httpClient := DefaultClient |}.

(** [req.Header.Set(key, value)] *)
Definition set_header (req : Request) (key value : string) : Request :=
  {| Ctx := Ctx req; Method := Method req; RequestURL := RequestURL req;
     Header := map_set (Header req) (CanonicalHeaderKey key) value;
     RequestBody := RequestBody req |}.

(** [req.Header.Get(key)] *)
Definition get_header (req : Request) (key : string) : option string :=
  map_get (Header req) (CanonicalHeaderKey key).

(** The request that [c.request] hands to the HTTP client: the
    configured headers are set in the order the [range] visits them, the
    content type of the call after them. *)
Definition new_request (c : ModrinthV2Client) (ctx : Context) (method path : string)
    (body : option string) (contentType : string) (net : Net) : error + Request :=
  let u := baseURL c ++ path in
  match NewRequestWithContext method u with
  | inl err => inl err
  | inr (method', url) =>
      let req := {| Ctx := ctx; Method := method'; RequestURL := url; Header := [];
                    RequestBody := body |} in
      let req := fold_left (fun r kv => set_header r (fst kv) (snd kv))
                           (range_order net (headers c)) req in
      inr (if (contentType =? EmptyString)%string then req
           else set_header req "Content-Type" contentType)
  end.

Definition request (c : ModrinthV2Client) (ctx : Context) (method path : string)
    (body : option string) (contentType : string) : Net -> (error + HttpResponse) * Net :=
  fun net =>
    match new_request c ctx method path body contentType net with
    | inl err => (inl err, net)
    | inr req => httpClient c req net
    end.

(** [resp.StatusCode < 200 || resp.StatusCode >= 300] *)
Definition failed (resp : HttpResponse) : bool :=
  (StatusCode resp <? 200) || (StatusCode resp >=? 300).

Definition api_failure (resp : HttpResponse) : api_error :=
  ModrinthAPIError (FinalURL resp) (StatusCode resp) (ResponseBody resp).

(** [doJSON].  [target] is the value the [result] pointer points at when
    the call starts and [decode] what decoding into it does; [decode] is
    [None] for a nil [result].  The value left in the target is returned
    beside the error. *)
Definition doJSON {T : Type} (c : ModrinthV2Client) (ctx : Context) (method path : string)
    (body : option json) (target : T) (decode : option (string -> T * option error))
  : Net -> (T * option api_error) * Net :=
  fun net =>
    match (match body with
           | Some doc =>
               match json_Marshal doc with
               | inl err => inl err
               | inr b => inr (Some b, "application/json")
               end
           | None => inr (None, EmptyString)
           end) with
    | inl err => ((target, Some (Underlying err)), net)
    | inr (r, ct) =>
        match request c ctx method path r ct net with
        | (inl err, net') => ((target, Some (Underlying err)), net')
        | (inr resp, net') =>
            if failed resp then ((target, Some (api_failure resp)), net')
            else
              match decode with
              | Some dec =>
                  ((fst (dec (ResponseBody resp)),
                    option_map Underlying (snd (dec (ResponseBody resp)))), net')
              | None => ((target, None), net')
              end
        end
    end.

(** A call that decodes into a fresh variable of a result type. *)
Definition fetch {T : Type} (R : Result T) (c : ModrinthV2Client) (ctx : Context)
    (method path : string) (body : option json) : Net -> (T * option api_error) * Net :=
  doJSON c ctx method path body (zero R) (Some (Decode R)).

(** *** SearchProjects *)

Definition search_index (options : SearchProjectOptions) : string :=
  if (Index options =? EmptyString)%string then
    if negb (Query options =? EmptyString)%string then "relevance" else "downloads"
  else Index options.

Definition SearchProjects_path (options : SearchProjectOptions) : string :=
  let v : Values := [] in
  let v := Values_Add v "query" (Query options) in
  let v := Values_Add v "filter" (Filter options) in
  let v := Values_Add v "index" (search_index options) in
  let v := Values_Add v "offset" (Sprint_int (Offset options)) in
  let v := Values_Add v "limit" (Sprint_int (Limit options)) in
  let v := if negb (Facets options =? EmptyString)%string
           then Values_Add v "facets" (Facets options) else v in
  "/v2/search?" ++ Values_Encode v.

Definition SearchProjects {SearchResult : Type} (R : Result SearchResult)
    (c : ModrinthV2Client) (ctx : Context) (options : SearchProjectOptions) :=
  fetch R c ctx "GET" (SearchProjects_path options) None.

(** *** GetProject, GetProjects *)

Definition GetProject_path (projectID : string) : string :=
  "/v2/project/" ++ TrimPrefix projectID "local-".

Definition GetProject {Project : Type} (R : Result Project)
    (c : ModrinthV2Client) (ctx : Context) (projectID : string) :=
  fetch R c ctx "GET" (GetProject_path projectID) None.

(** [b, _ := json.Marshal(ids)]: on an error the text is empty. *)
Definition marshal_ids (ids : option (list string)) : string :=
  match json_Marshal (strings_json ids) with
  | inr b => b
  | inl _ => EmptyString
  end.

Definition GetProjects_path (projectIDs : option (list string)) : string :=
  "/v2/projects?" ++ Values_Encode (Values_Add [] "ids" (marshal_ids projectIDs)).

Definition GetProjects {Projects : Type} (R : Result Projects)
    (c : ModrinthV2Client) (ctx : Context) (projectIDs : option (list string)) :=
  fetch R c ctx "GET" (GetProjects_path projectIDs) None.

Definition GetProjectVersionsByID_path (ids : option (list string)) : string :=
  "/v2/versions?" ++ Values_Encode (Values_Add [] "ids" (marshal_ids ids)).

Definition GetProjectVersionsByID {Versions : Type} (R : Result Versions)
    (c : ModrinthV2Client) (ctx : Context) (ids : option (list string)) :=
  fetch R c ctx "GET" (GetProjectVersionsByID_path ids) None.

(** *** GetProjectVersions *)

(** The query of [GetProjectVersions], or the error of a [json.Marshal]
    that failed. *)
Definition GetProjectVersions_query (options : GetProjectVersionsOptions) : error + Values :=
  let v : Values := [] in
  match (match Loaders options with
         | [] => inr v
         | _ :: _ =>
             match json_Marshal (JArr (map JStr (Loaders options))) with
             | inl err => inl err
             | inr b => inr (Values_Add v "loaders" b)
             end
         end) with
  | inl err => inl err
  | inr v =>
      match (match GameVersions options with
             | [] => inr v
             | _ :: _ =>
                 match json_Marshal (JArr (map JStr (GameVersions options))) with
                 | inl err => inl err
                 | inr b => inr (Values_Add v "game_versions" b)
                 end
             end) with
      | inl err => inl err
      | inr v =>
          inr (match Featured options with
               | Some b => Values_Add v "featured" (Sprint_bool b)
               | None => v
               end)
      end
  end.

Definition GetProjectVersions {Versions : Type} (R : Result Versions)
    (c : ModrinthV2Client) (ctx : Context) (projectID : string)
    (options : GetProjectVersionsOptions) : Net -> (Versions * option api_error) * Net :=
  fun net =>
    match GetProjectVersions_query options with
    | inl err => ((zero R, Some (Underlying err)), net)
    | inr v =>
        fetch R c ctx "GET" ("/v2/project/" ++ projectID ++ "/version?" ++ Values_Encode v)
              None net
    end.

(** *** Versions by hash *)

Definition GetProjectVersionsByHash {VersionMap : Type} (R : Result VersionMap)
    (c : ModrinthV2Client) (ctx : Context) (hashes : option (list string))
    (algorithm : string) :=
  let algorithm := if (algorithm =? EmptyString)%string then "sha1" else algorithm in
  let body := map_json [("hashes", strings_json hashes); ("algorithm", JStr algorithm)] in
  fetch R c ctx "POST" "/v2/version_files" (Some body).

Definition GetLatestVersionsFromHashes {VersionMap : Type} (R : Result VersionMap)
    (c : ModrinthV2Client) (ctx : Context) (hashes : option (list string))
    (algorithm : string) (loaders gameVersions : option (list string)) :=
  let body := map_json [("hashes", strings_json hashes); ("algorithm", JStr algorithm);
                        ("loaders", strings_json loaders);
                        ("game_versions", strings_json gameVersions)] in
  fetch R c ctx "POST" "/v2/version_files/update" (Some body).

Definition GetLatestProjectVersion_path (sha1 algorithm : string) : string :=
  let algorithm := if (algorithm =? EmptyString)%string then "sha1" else algorithm in
  "/v2/version_file/" ++ sha1 ++ "/update?" ++ Values_Encode (Values_Add [] "algorithm" algorithm).

Definition GetLatestProjectVersion {Version : Type} (R : Result Version)
    (c : ModrinthV2Client) (ctx : Context) (sha1 algorithm : string)
    (loaders gameVersions : option (list string)) :=
  let body := map_json [("loaders", strings_json loaders);
                        ("game_versions", strings_json gameVersions)] in
  fetch R c ctx "POST" (GetLatestProjectVersion_path sha1 algorithm) (Some body).

(** *** Collections *)

Definition UpdateCollectionIcon (c : ModrinthV2Client) (ctx : Context)
    (collectionID : string) (iconData : string) (mimeType : string)
  : Net -> option api_error * Net :=
  fun net =>
    let extParts := Split mimeType "/" in
    if (List.length extParts <? 2)%nat then (Some (ErrorString "invalid mime type"), net)
    else
      let ext := nth 1 extParts EmptyString in
      let path := "/v3/collection/" ++ collectionID ++ "/icon?ext=" ++ ext in
      match request c ctx "PATCH" path (Some iconData) mimeType net with
      | (inl err, net') => (Some (Underlying err), net')
      | (inr resp, net') =>
          if failed resp then (Some (api_failure resp), net') else (None, net')
      end.

Definition CreateCollection {Collection : Type} (R : Result Collection)
    (c : ModrinthV2Client) (ctx : Context) (name description : string)
    (projectIDs : option (list string)) :=
  let body := map_json [("name", JStr name); ("description", JStr description);
                        ("projects", strings_json projectIDs)] in
  fetch R c ctx "POST" "/v3/collection" (Some body).

Definition UpdateCollection (c : ModrinthV2Client) (ctx : Context) (collectionID : string)
    (projectIDs : option (list string)) : Net -> (unit * option api_error) * Net :=
  let body := map_json [("new_projects", strings_json projectIDs)] in
  doJSON c ctx "PATCH" ("/v3/collection/" ++ collectionID) (Some body) tt None.

(** *** Following *)

Definition FollowProject (c : ModrinthV2Client) (ctx : Context) (id : string)
  : Net -> (unit * option api_error) * Net :=
  doJSON c ctx "POST" ("/v2/project/" ++ id ++ "/follow") None tt None.

Definition UnfollowProject (c : ModrinthV2Client) (ctx : Context) (id : string)
  : Net -> (unit * option api_error) * Net :=
  doJSON c ctx "DELETE" ("/v2/project/" ++ id ++ "/follow") None tt None.

End Client.

Arguments baseURL {Context Net} _.
Arguments headers {Context Net} _.
Arguments httpClient {Context Net} _.
Arguments Ctx {Context} _.
Arguments Method {Context} _.
Arguments RequestURL {Context} _.
Arguments Header {Context} _.
Arguments RequestBody {Context} _.

End Modrinth.

(** ** A concrete server for the Modrinth client *)

Module ModrinthDemo.

(** The network is the log of the requests made, as method and URL. *)
Definition Net : Type := list (string * string).

(** Header names in their canonical form, for names made of letters,
    digits and hyphens: a capital at the start and after each hyphen,
    small letters elsewhere. *)
Definition upper_ascii (c : ascii) : ascii :=
  let n := nat_of_ascii c in
  if ((97 <=? n) && (n <=? 122))%nat then ascii_of_nat (n - 32) else c.

Fixpoint canonical_from (start : bool) (s : string) : string :=
  match s with
  | EmptyString => EmptyString
  | String c rest =>
      String (if start then upper_ascii c else lower_ascii c)
             (canonical_from (c =? "-")%char rest)
  end.

Definition CanonicalHeaderKey (s : string) : string := canonical_from true s.

(** Every method and URL is accepted; the URLs used are in the form that
    parsing and printing leave alone. *)
Definition NewRequestWithContext (method url : string) : error + (string * string) :=
  inr (if (method =? EmptyString)%string then "GET" else method, url).

(** This run visits the entries of a map from the last to the first. *)
Definition range_order (net : Net) (m : list (string * string)) : list (string * string) :=
  rev m.

(** A server that logs the request and answers 200 with an empty list. *)
Definition server : Modrinth.HTTPClient unit Net :=
  fun req net =>
    (inr {| Modrinth.StatusCode := 200;
            Modrinth.ResponseBody := "[]";
            Modrinth.FinalURL := Modrinth.RequestURL req |},
     (net ++ [(Modrinth.Method req, Modrinth.RequestURL req)])%list).

(** A server that logs the request and refuses it. *)
Definition refusing : Modrinth.HTTPClient unit Net :=
  fun req net =>
    (inr {| Modrinth.StatusCode := 404;
            Modrinth.ResponseBody := "not found";
            Modrinth.FinalURL := Modrinth.RequestURL req |},
     (net ++ [(Modrinth.Method req, Modrinth.RequestURL req)])%list).

(** Results kept as the text of the body. *)
Definition raw : Modrinth.Result string :=
  {| Modrinth.zero := EmptyString; Modrinth.Decode := fun body => (body, None) |}.

Definition client : Modrinth.ModrinthV2Client unit Net :=
  Modrinth.NewModrinthV2Client unit Net server
    [Modrinth.WithBaseURL unit Net "http://localhost:8080";
     Modrinth.WithHeaders unit Net [("content-type", "text/plain"); ("x-api-key", "key")]].

Definition filters : Modrinth.GetProjectVersionsOptions :=
  {| Modrinth.Loaders := ["fabric"]; Modrinth.GameVersions := ["1.20.1"];
     Modrinth.Featured := Some true |}.

End ModrinthDemo.

(** * Properties *)

(** ** Frame codec *)

Lemma Z_of_byte_range (b : byte) : 0 <= Codec.Z_of_byte b < 256.
Proof.
  unfold Codec.Z_of_byte.
  pose proof (Byte.to_N_bounded b) as Hb.
  lia.
Qed.

Lemma Z_of_byte_of_Z (z : Z) : Codec.Z_of_byte (Codec.byte_of_Z z) = z mod 256.
Proof.
  unfold Codec.Z_of_byte, Codec.byte_of_Z.
  assert (Hr : 0 <= z mod 256 < 256) by (apply Z.mod_pos_bound; lia).
  destruct (Byte.of_N (Z.to_N (z mod 256))) as [b|] eqn:E.
  - apply Byte.to_of_N in E. rewrite E. apply Z2N.id. lia.
  - apply Byte.of_N_None_iff in E. lia.
Qed.

Lemma byte_of_Z_of_byte (b : byte) : Codec.byte_of_Z (Codec.Z_of_byte b) = b.
Proof.
  unfold Codec.byte_of_Z, Codec.Z_of_byte.
  pose proof (Byte.to_N_bounded b) as Hb.
  rewrite Z.mod_small by lia.
  rewrite N2Z.id, Byte.of_to_N. reflexivity.
Qed.

(** Four little-endian bytes read back as the number they were written from. *)
Lemma u32_le32 (n : Z) :
  0 <= n < 2 ^ 32 ->
  match Codec.le32 n with
  | [b0; b1; b2; b3] => Codec.u32 b0 b1 b2 b3 = n
  | _ => False
  end.
Proof.
  intros Hn. unfold Codec.le32, Codec.u32.
  rewrite !Z_of_byte_of_Z.
  change (2 ^ 8) with 256. change (2 ^ 16) with 65536. change (2 ^ 24) with 16777216.
  change (2 ^ 32) with 4294967296 in Hn.
  pose proof (Z.div_mod n 256 ltac:(lia)) as H0.
  pose proof (Z.div_mod (n / 256) 256 ltac:(lia)) as H1.
  pose proof (Z.div_mod (n / 65536) 256 ltac:(lia)) as H2.
  assert (E1 : n / 256 / 256 = n / 65536) by (rewrite Z.div_div by lia; reflexivity).
  assert (E2 : n / 65536 / 256 = n / 16777216) by (rewrite Z.div_div by lia; reflexivity).
  rewrite E1 in H1. rewrite E2 in H2.
  assert (H3 : 0 <= n / 16777216 < 256).
  { split; [apply Z.div_pos; lia | apply Z.div_lt_upper_bound; lia]. }
  rewrite (Z.mod_small (n / 16777216) 256) by exact H3.
  lia.
Qed.

(** Decoding a stream that starts with an encoded frame yields that frame
    and leaves the rest of the stream. *)
Lemma decode_encode_app (op : Z) (body rest : list byte) :
  Codec.valid op body ->
  Codec.decode (Codec.encode op body ++ rest)
  = inr ({| Codec.opcode := op;
            Codec.length := Z.of_nat (List.length body);
            Codec.payload := body |}, rest).
Proof.
  intros [Hop Hlen].
  pose proof (u32_le32 op Hop) as Uop.
  pose proof (u32_le32 (Z.of_nat (List.length body)) ltac:(lia)) as Ulen.
  unfold Codec.encode.
  destruct (Codec.le32 op) as [|o0 [|o1 [|o2 [|o3 [|]]]]]; try contradiction.
  destruct (Codec.le32 (Z.of_nat (List.length body))) as [|l0 [|l1 [|l2 [|l3 [|]]]]];
    try contradiction.
  cbn [app Codec.decode].
  rewrite Uop, Ulen.
  rewrite length_app.
  destruct (Z.ltb_spec (Z.of_nat (List.length body + List.length rest))
                       (Z.of_nat (List.length body))) as [Hlt|_]; [lia|].
  rewrite Nat2Z.id.
  rewrite firstn_app, Nat.sub_diag, firstn_all, firstn_O, app_nil_r.
  rewrite skipn_app, Nat.sub_diag, skipn_all. reflexivity.
Qed.

Lemma le32_length (n : Z) : List.length (Codec.le32 n) = 4%nat.
Proof. reflexivity. Qed.

(** C7 (frame-codec round trip).  For every opcode and payload whose
    opcode and length fit an unsigned 32-bit integer, decoding the
    encoded frame gives back exactly that opcode and payload and nothing
    is left over; the encoded frame is an 8-byte header, the opcode and
    then the payload length as little-endian unsigned 32-bit integers,
    followed by the payload bytes unchanged. *)
Theorem codec_roundtrip (op : Z) (body : list byte) :
  Codec.valid op body ->
  Codec.decode (Codec.encode op body)
  = inr ({| Codec.opcode := op;
            Codec.length := Z.of_nat (List.length body);
            Codec.payload := body |}, [])
  /\ exists o0 o1 o2 o3 l0 l1 l2 l3,
       Codec.encode op body = o0 :: o1 :: o2 :: o3 :: l0 :: l1 :: l2 :: l3 :: body
       /\ Codec.Z_of_byte o0 + 256 * Codec.Z_of_byte o1 + 65536 * Codec.Z_of_byte o2
          + 16777216 * Codec.Z_of_byte o3 = op
       /\ Codec.Z_of_byte l0 + 256 * Codec.Z_of_byte l1 + 65536 * Codec.Z_of_byte l2
          + 16777216 * Codec.Z_of_byte l3 = Z.of_nat (List.length body).
Proof.
  intros Hv. split.
  - rewrite <- (app_nil_r (Codec.encode op body)). apply decode_encode_app. exact Hv.
  - destruct Hv as [Hop Hlen].
    pose proof (u32_le32 op Hop) as Uop.
    pose proof (u32_le32 (Z.of_nat (List.length body)) ltac:(lia)) as Ulen.
    unfold Codec.encode, Codec.le32 in *.
    do 8 eexists. split; [reflexivity|].
    unfold Codec.u32 in Uop, Ulen. split; assumption.
Qed.


(** ** The socket layer leaves the login flag alone *)

Lemma OpenSocket_run (w : World) :
  exists err w', ipc.OpenSocket w = (Return err, w')
                 /\ logged w' = logged w /\ outbound w' = outbound w
                 /\ inbound w' = inbound w /\ write_fault w' = write_fault w.
Proof.
  unfold ipc.OpenSocket.
  destruct (find (ipc.accepts w) ipc.candidates); eexists; eexists; repeat split.
Qed.

Lemma OpenSocket_ok (w w' : World) :
  ipc.OpenSocket w = (Return nil_error, w') ->
  exists k, w' = set_socket (Some k) w.
Proof.
  unfold ipc.OpenSocket.
  destruct (find (ipc.accepts w) ipc.candidates) as [k|]; intros H; inversion H.
  exists k. reflexivity.
Qed.

Lemma Send_run (op : Z) (body : string) (w : World) :
  exists r w', ipc.Send op body w = (Return r, w') /\ logged w' = logged w.
Proof.
  unfold ipc.Send.
  destruct (socket w); [|eexists; eexists; split; reflexivity].
  destruct (write_fault w); [eexists; eexists; split; reflexivity|].
  destruct (Codec.decode _) as [err|[f rest]]; eexists; eexists; split; reflexivity.
Qed.

(** A send that returns a reply wrote exactly one frame, consumed exactly
    one frame, and left the connection open. *)
Lemma Send_ok (op : Z) (body resp : string) (w w' : World) :
  ipc.Send op body w = (Return (inr resp), w') ->
  exists f rest,
    Codec.decode (inbound w) = inr (f, rest)
    /\ resp = string_of_list_byte (Codec.payload f)
    /\ w' = set_inbound rest
              (set_outbound (outbound w ++ Codec.encode op (list_byte_of_string body)) w)
    /\ socket w <> None.
Proof.
  unfold ipc.Send.
  destruct (socket w) as [c|] eqn:Es; [|discriminate].
  destruct (write_fault w); [discriminate|].
  cbn [inbound set_outbound].
  destruct (Codec.decode (inbound w)) as [err|[f rest]] eqn:Ed; [discriminate|].
  intros H. inversion H. exists f, rest. repeat split. discriminate.
Qed.

(** ** getNonce *)

(** Whatever getNonce comes to, it touches nothing but the random source
    and the standard output, and sixteen bytes of the source are gone. *)
Lemma getNonce_frame (w : World) :
  logged (snd (getNonce w)) = logged w /\ socket (snd (getNonce w)) = socket w
  /\ pid (snd (getNonce w)) = pid w
  /\ inbound (snd (getNonce w)) = inbound w /\ outbound (snd (getNonce w)) = outbound w
  /\ write_fault (snd (getNonce w)) = write_fault w
  /\ entropy (snd (getNonce w)) = skipn 16 (entropy w).
Proof.
  unfold getNonce, bind, rand_Read. cbn [fst snd].
  destruct (16 <=? List.length (entropy w))%nat; [repeat split|].
  destruct (rand_fatal w); repeat split.
Qed.

(** getNonce returns whenever [rand.Read] does, and it never panics. *)
Lemma getNonce_returns (w : World) :
  rand_returns 16 w = true -> exists nonce, fst (getNonce w) = Return nonce.
Proof.
  unfold rand_returns, getNonce, bind, rand_Read. cbn [fst snd].
  destruct (16 <=? List.length (entropy w))%nat; [intros _; eexists; reflexivity|].
  destruct (rand_fatal w); [discriminate | intros _; eexists; reflexivity].
Qed.

Lemma getNonce_crashes (w : World) :
  rand_returns 16 w = false -> fst (getNonce w) = Crash (rand_fault w).
Proof.
  unfold rand_returns, getNonce, bind, rand_Read. cbn [fst snd].
  destruct (16 <=? List.length (entropy w))%nat; [discriminate|].
  destruct (rand_fatal w); [reflexivity | discriminate].
Qed.

Lemma getNonce_never_panics (w : World) (e : error) : fst (getNonce w) <> Panic e.
Proof.
  unfold getNonce, bind, rand_Read. cbn [fst snd].
  destruct (16 <=? List.length (entropy w))%nat; [discriminate|].
  destruct (rand_fatal w); discriminate.
Qed.

(** What getNonce returns is the print of the masked buffer. *)
Lemma getNonce_prints (w : World) (nonce : string) :
  fst (getNonce w) = Return nonce -> nonce = nonce_text (nonce_bytes (entropy w)).
Proof.
  unfold getNonce, bind, rand_Read, nonce_text, nonce_bytes, rand_buffer. cbn [fst snd].
  destruct (16 <=? List.length (entropy w))%nat.
  - intros H. inversion H. reflexivity.
  - destruct (rand_fatal w); [discriminate|]. intros H. inversion H. reflexivity.
Qed.

(** ** Reading the event tag of a reply *)

Lemma Response_set_keeps_Event (r : Response) (kv : string * json) :
  fold_name (fst kv) <> "evt" ->
  Event (fst (Response_set r kv)) = Event r.
Proof.
  intros Hk. unfold Response_set.
  destruct (fold_name (fst kv) =? "cmd")%string.
  { destruct (into_string "cmd" (snd kv) (RespCmd r)). reflexivity. }
  destruct (fold_name (fst kv) =? "data")%string; [reflexivity|].
  destruct (fold_name (fst kv) =? "evt")%string eqn:E.
  { apply String.eqb_eq in E. contradiction. }
  destruct (fold_name (fst kv) =? "nonce")%string; [|reflexivity].
  destruct (into_string "nonce" (snd kv) (RespNonce r)). reflexivity.
Qed.

Lemma Response_fill_keeps_Event (members : list (string * json)) :
  (forall kv, In kv members -> fold_name (fst kv) <> "evt") ->
  forall r saved, Event (fst (Response_fill members r saved)) = Event r.
Proof.
  induction members as [|kv rest IH]; intros Hk r saved; [reflexivity|].
  cbn [Response_fill].
  pose proof (Response_set_keeps_Event r kv (Hk kv (or_introl eq_refl))) as Hset.
  destruct (Response_set r kv) as [r' e]. cbn [fst] in Hset.
  rewrite IH by (intros kv' Hin; apply Hk; right; exact Hin).
  exact Hset.
Qed.

(** A reply without an event tag decodes to the empty tag. *)
Lemma decode_Response_no_evt (members : list (string * json)) (r : Response) :
  (forall kv, In kv members -> fold_name (fst kv) <> "evt") ->
  decode_Response (JObj members) = inr r ->
  Event r = EmptyString.
Proof.
  intros Hk. unfold decode_Response.
  pose proof (Response_fill_keeps_Event members Hk Response_zero None) as HE.
  destruct (Response_fill members Response_zero None) as [r' [e|]]; [discriminate|].
  intros H. inversion H. subst r'. exact HE.
Qed.

(** ** The client *)

Section ClientFacts.

Variable json_Marshal : json -> error + string.
Variable json_Parse : string -> error + json.
Variable Unmarshal_HandshakeResponse : string -> error + HandshakeResponse.

Local Abbreviation client_Login :=
  (Login json_Marshal json_Parse Unmarshal_HandshakeResponse).
Local Abbreviation client_SetActivity := (SetActivity json_Marshal json_Parse).
Local Abbreviation client_Unmarshal := (Unmarshal_Response json_Parse).

(** While not logged in, an activity update does nothing at all. *)
Lemma SetActivity_skips (activity : PayloadActivity) (w : World) :
  logged w = false -> client_SetActivity activity w = (Return nil_error, w).
Proof.
  intros Hl. unfold SetActivity, bind, get. rewrite Hl. reflexivity.
Qed.

(** While logged in, an activity update is the nonce, the marshalling of
    the request and then one [ipc.Send] with opcode 1. *)
Lemma SetActivity_unfold (activity : PayloadActivity) (w w1 : World) (nonce : string) :
  logged w = true ->
  getNonce w = (Return nonce, w1) ->
  client_SetActivity activity w
  = match json_Marshal (request w activity nonce) with
    | inl err => (Return (Some err), w1)
    | inr payload =>
        bind (ipc.Send 1 payload)
             (fun r =>
                match r with
                | inl err => ret (Some (Wrapped "failed to send activity" err))
                | inr resp =>
                    match client_Unmarshal resp with
                    | inl err => ret (Some (Wrapped "failed to parse response" err))
                    | inr response =>
                        if (Event response =? "ERROR")%string
                        then ret (Some (DiscordError (Data response)))
                        else ret nil_error
                    end
                end) w1
    end.
Proof.
  intros Hl Hn. unfold SetActivity, request.
  unfold bind at 1. unfold get at 1. rewrite Hl. cbn [negb].
  unfold bind at 1. unfold get at 1.
  unfold bind at 1. rewrite Hn.
  destruct (json_Marshal _); reflexivity.
Qed.

(** C1 (no-op law).  For every activity, calling SetActivity while the
    session is not logged in returns nil and leaves the whole world as
    it was: no frame is written, nothing is read, no random bytes are
    drawn. *)
Theorem SetActivity_not_ready_is_noop (activity : PayloadActivity) (w : World) :
  logged w = false ->
  client_SetActivity activity w = (Return nil_error, w)
  /\ outbound (snd (client_SetActivity activity w)) = outbound w.
Proof.
  intros Hl. rewrite (SetActivity_skips activity w Hl). split; reflexivity.
Qed.

(** C2 (reply decides the result).  When the session is logged in and a
    reply to the activity frame has been received and decoded,
    SetActivity returns an error exactly when the reply's event tag is
    "ERROR", and that error is the activity rejection carrying the
    reply's data; a reply whose tag is different, or that has no event
    member at all, gives nil; either way the session is still logged in
    afterwards. *)
Theorem SetActivity_reply_decides
    (activity : PayloadActivity) (w w1 w2 : World)
    (nonce payload resp : string) (response : Response) :
  logged w = true ->
  getNonce w = (Return nonce, w1) ->
  json_Marshal (request w activity nonce) = inr payload ->
  ipc.Send 1 payload w1 = (Return (inr resp), w2) ->
  client_Unmarshal resp = inr response ->
  exists result,
    client_SetActivity activity w = (Return result, w2)
    /\ (result <> None <-> Event response = "ERROR")
    /\ (Event response = "ERROR" -> result = Some (ActivityRejected (Data response)))
    /\ (Event response <> "ERROR" -> result = nil_error)
    /\ (forall members,
           json_Parse resp = inr (JObj members) ->
           (forall kv, In kv members -> fold_name (fst kv) <> "evt") ->
           result = nil_error)
    /\ logged w2 = true.
Proof.
  intros Hl Hn Hm Hs Hu.
  assert (Hl2 : logged w2 = true).
  { pose proof (getNonce_frame w) as (Hl1 & _). rewrite Hn in Hl1. cbn [snd] in Hl1.
    destruct (Send_run 1 payload w1) as (r & w2' & Hrun2 & Hl2).
    rewrite Hs in Hrun2. inversion Hrun2. subst. congruence. }
  rewrite (SetActivity_unfold activity w w1 nonce Hl Hn), Hm.
  unfold bind. rewrite Hs, Hu.
  destruct (Event response =? "ERROR")%string eqn:E.
  - apply String.eqb_eq in E.
    exists (Some (DiscordError (Data response))).
    split; [reflexivity|]. split; [split; [intros _; exact E | discriminate]|].
    split; [reflexivity|]. split; [intros Hne; contradiction|].
    split; [|exact Hl2].
    intros members Hp Hk. exfalso.
    unfold Unmarshal_Response in Hu. rewrite Hp in Hu.
    rewrite (decode_Response_no_evt members response Hk Hu) in E. discriminate.
  - apply String.eqb_neq in E.
    exists nil_error.
    split; [reflexivity|]. split; [split; [intros Hc; contradiction | intros Hc; contradiction]|].
    split; [intros Hc; contradiction|]. split; [reflexivity|].
    split; [reflexivity | exact Hl2].
Qed.

(** C5, as the code has it.  When the session is logged in and
    [rand.Read] returns, SetActivity returns after drawing sixteen fresh
    bytes from the random source; the nonce is their print (with the
    version digit), the document is
    {cmd: "SET_ACTIVITY", args: {pid, activity}, nonce}, and it is handed
    to one ipc.Send with opcode 1.  Over an open, writable connection
    exactly one frame, with opcode 1 and the marshalled document as its
    payload, is appended to the bytes written, and exactly one reply
    frame is taken from the stream; when no whole reply frame is there
    the result is the send failure and the connection is gone.  Being
    logged in does not mean that the connection is open: over a
    connection that refuses the write, or when there is no connection,
    no frame is written, nothing is read, and the result is the send
    failure. *)
Theorem SetActivity_sends_one_frame
    (activity : PayloadActivity) (w : World) (payload : string) :
  logged w = true ->
  rand_returns 16 w = true ->
  json_Marshal
    (JObj [("cmd", JStr "SET_ACTIVITY");
           ("args", JObj [("pid", JNum (pid w));
                          ("activity", PayloadActivity_json activity)]);
           ("nonce", JStr (nonce_text (nonce_bytes (entropy w))))])
  = inr payload ->
  exists result w2,
    client_SetActivity activity w = (Return result, w2)
    /\ entropy w2 = skipn 16 (entropy w)
    /\ match socket w, write_fault w with
       | Some c, None =>
           outbound w2 = (outbound w ++ Codec.encode 1 (list_byte_of_string payload))%list
           /\ match Codec.decode (inbound w) with
              | inr (f, rest) => inbound w2 = rest /\ socket w2 = Some c
              | inl err =>
                  result = Some (Wrapped "failed to send activity" err) /\ socket w2 = None
              end
       | Some c, Some msg =>
           outbound w2 = outbound w /\ inbound w2 = inbound w
           /\ result = Some (Wrapped "failed to send activity" (IOError msg))
           /\ socket w2 = None
       | None, _ =>
           outbound w2 = outbound w /\ inbound w2 = inbound w
           /\ result = Some (Wrapped "failed to send activity" NotConnected)
       end.
Proof.
  intros Hl Hr Hm.
  destruct (getNonce_returns w Hr) as (nonce & Hn).
  pose proof (getNonce_prints w nonce Hn) as Hp. subst nonce.
  pose proof (getNonce_frame w) as (_ & Hs1 & _ & Hi1 & Ho1 & Hw1 & He1).
  destruct (getNonce w) as [r w1] eqn:Hrun. cbn [fst snd] in *. subst r.
  rewrite (SetActivity_unfold activity w w1 _ Hl Hrun).
  assert (Hm' : json_Marshal (request w activity (nonce_text (nonce_bytes (entropy w))))
                = inr payload) by exact Hm.
  rewrite Hm'. unfold bind, ipc.Send. rewrite Hs1, Hw1.
  destruct (socket w) as [c|].
  - destruct (write_fault w) as [msg|].
    + eexists. eexists. split; [reflexivity|]. split; [exact He1|].
      cbn [outbound inbound socket set_socket]. repeat split; assumption.
    + cbn [inbound set_outbound]. rewrite Hi1, Ho1.
      destruct (Codec.decode (inbound w)) as [err|[f rest]].
      * eexists. eexists. split; [reflexivity|]. split; [exact He1|].
        repeat split.
      * destruct (client_Unmarshal (string_of_list_byte (Codec.payload f))) as [err|response];
          [|destruct (Event response =? "ERROR")%string];
          (eexists; eexists; split; [reflexivity|]; split; [exact He1|];
           cbn [outbound inbound socket set_inbound set_outbound];
           repeat split; assumption).
  - eexists. eexists. split; [reflexivity|]. split; [exact He1|].
    repeat split; assumption.
Qed.

(** When [rand.Read] ends the process, so does SetActivity, before
    anything is written. *)
Lemma SetActivity_crashes (activity : PayloadActivity) (w : World) :
  logged w = true ->
  rand_returns 16 w = false ->
  fst (client_SetActivity activity w) = Crash (rand_fault w)
  /\ outbound (snd (client_SetActivity activity w)) = outbound w.
Proof.
  intros Hl Hr.
  pose proof (getNonce_crashes w Hr) as Hc.
  pose proof (getNonce_frame w) as (_ & _ & _ & _ & Ho & _).
  assert (Hrun : client_SetActivity activity w = (Crash (rand_fault w), snd (getNonce w))).
  { unfold SetActivity, bind, get. rewrite Hl. cbn [negb].
    destruct (getNonce w) as [r w1]. cbn [fst snd] in *. subst r. reflexivity. }
  rewrite Hrun. split; [reflexivity | exact Ho].
Qed.

(** *** Login *)

Lemma set_logged_same (b : bool) (w : World) : logged w = b -> set_logged b w = w.
Proof. destruct w. cbn. intros H. subst. reflexivity. Qed.

Lemma Login_when_logged (clientid : string) (w : World) :
  logged w = true -> client_Login clientid w = (Return nil_error, w).
Proof.
  intros Hl. unfold Login, bind, get, modify, ret. rewrite Hl. cbn [negb].
  unfold nil_error. rewrite (set_logged_same true w Hl). reflexivity.
Qed.

Lemma Login_when_not_logged (clientid : string) (w : World) :
  logged w = false ->
  client_Login clientid w
  = match handshake json_Marshal json_Parse Unmarshal_HandshakeResponse clientid w with
    | (Return (Some err), w') => (Return (Some err), w')
    | (Return None, w') => (Return nil_error, set_logged true w')
    | (Panic e, w') => (Panic e, w')
    | (Crash e, w') => (Crash e, w')
    end.
Proof.
  intros Hl. unfold Login, bind, get, modify, ret. rewrite Hl. cbn [negb].
  destruct (handshake _ _ _ clientid w) as [[[e|]|e|e] w']; reflexivity.
Qed.

(** The handshake never panics, never touches the login flag, and every
    error it returns comes from one of its six failure points. *)
Lemma handshake_run (clientid : string) (w : World) :
  exists r w',
    handshake json_Marshal json_Parse Unmarshal_HandshakeResponse clientid w = (Return r, w')
    /\ logged w' = logged w
    /\ forall e, r = Some e ->
          json_Marshal (Handshake_json {| V := "1"; ClientId := clientid |}) = inl e
          \/ fst (ipc.OpenSocket w) = Return (Some e)
          \/ (exists cause, e = Wrapped "failed to send handshake" cause)
          \/ (exists cause, e = Wrapped "failed to parse response" cause)
          \/ (exists data, e = DiscordError data)
          \/ (exists cause, e = Wrapped "failed to parse handshake response" cause).
Proof.
  unfold handshake.
  destruct (json_Marshal (Handshake_json _)) as [me|payload] eqn:Em.
  { exists (Some me), w. repeat split. intros e H. inversion H. subst e. left. reflexivity. }
  unfold bind.
  destruct (OpenSocket_run w) as (oerr & w1 & Ho & Hl1 & _). rewrite Ho.
  destruct oerr as [oe|].
  { exists (Some oe), w1. split; [reflexivity|]. split; [exact Hl1|].
    intros e H. inversion H. subst e. right. left. reflexivity. }
  destruct (Send_run 0 payload w1) as (r & w2 & Hs & Hl2). rewrite Hs.
  assert (Hl : logged w2 = logged w) by congruence.
  destruct r as [se|resp].
  { eexists. exists w2. split; [reflexivity|]. split; [exact Hl|].
    intros e H. inversion H. right. right. left. eexists. reflexivity. }
  destruct (Unmarshal_Response json_Parse resp) as [pe|response].
  { eexists. exists w2. split; [reflexivity|]. split; [exact Hl|].
    intros e H. inversion H. do 3 right. left. eexists. reflexivity. }
  destruct (Event response =? "ERROR")%string.
  { eexists. exists w2. split; [reflexivity|]. split; [exact Hl|].
    intros e H. inversion H. do 4 right. left. eexists. reflexivity. }
  destruct (json_Marshal (Data response)) as [skipped|respData].
  { exists nil_error, w2. split; [reflexivity|]. split; [exact Hl|]. intros e H. discriminate. }
  destruct (Unmarshal_HandshakeResponse respData) as [he|h].
  { eexists. exists w2. split; [reflexivity|]. split; [exact Hl|].
    intros e H. inversion H. do 5 right. eexists. reflexivity. }
  exists nil_error, w2. split; [reflexivity|]. split; [exact Hl|]. intros e H. discriminate.
Qed.

(** A handshake that succeeds wrote exactly one frame, with opcode 0 and
    the marshalled [Handshake] as its payload. *)
Lemma handshake_ok (clientid : string) (w w' : World) :
  handshake json_Marshal json_Parse Unmarshal_HandshakeResponse clientid w
  = (Return nil_error, w') ->
  exists payload,
    json_Marshal (Handshake_json {| V := "1"; ClientId := clientid |}) = inr payload
    /\ outbound w' = (outbound w ++ Codec.encode 0 (list_byte_of_string payload))%list
    /\ socket w' <> None.
Proof.
  unfold handshake.
  destruct (json_Marshal (Handshake_json _)) as [me|payload] eqn:Em; [discriminate|].
  unfold bind.
  destruct (OpenSocket_run w) as (oerr & w1 & Ho & _ & Ho1 & _). rewrite Ho.
  destruct oerr as [oe|]; [discriminate|].
  destruct (ipc.Send 0 payload w1) as [[r|pe|pe] w2] eqn:Hs; [|discriminate|discriminate].
  destruct r as [se|resp]; [discriminate|].
  destruct (Send_ok 0 payload resp w1 w2 Hs) as (f & rest & _ & _ & Hw2 & Hsock).
  intros H. exists payload. split; [reflexivity|].
  assert (Hw' : w' = w2).
  { destruct (Unmarshal_Response json_Parse resp) as [|response]; [discriminate|].
    destruct (Event response =? "ERROR")%string; [discriminate|].
    destruct (json_Marshal (Data response)) as [|respData]; [inversion H; reflexivity|].
    destruct (Unmarshal_HandshakeResponse respData); [discriminate|].
    inversion H. reflexivity. }
  subst w' w2. cbn [outbound set_inbound set_outbound socket]. rewrite Ho1.
  split; [reflexivity | exact Hsock].
Qed.

(** C3, as the code has it.  For every login attempt from a session
    that is not logged in whose handshake reply carries the error event
    tag, Login fails with the handshake rejection carrying the reply's
    data, the session stays not logged in, and a following SetActivity
    is still a no-op returning nil; Login does not close the
    connection: it is left open, exactly as the send left it. *)
Theorem Login_rejected_stays_not_ready
    (clientid payload resp : string) (w w1 w2 : World) (response : Response) :
  logged w = false ->
  json_Marshal (Handshake_json {| V := "1"; ClientId := clientid |}) = inr payload ->
  ipc.OpenSocket w = (Return nil_error, w1) ->
  ipc.Send 0 payload w1 = (Return (inr resp), w2) ->
  client_Unmarshal resp = inr response ->
  Event response = "ERROR" ->
  client_Login clientid w = (Return (Some (HandshakeRejected (Data response))), w2)
  /\ logged w2 = false
  /\ socket w2 <> None
  /\ forall activity, client_SetActivity activity w2 = (Return nil_error, w2).
Proof.
  intros Hl Hm Ho Hs Hu He.
  assert (Hl2 : logged w2 = false).
  { destruct (OpenSocket_run w) as (oerr & w1' & Ho' & Hl1 & _).
    rewrite Ho in Ho'. inversion Ho'. subst.
    destruct (Send_run 0 payload w1') as (r & w2' & Hs' & Hl2).
    rewrite Hs in Hs'. inversion Hs'. subst. congruence. }
  split.
  - rewrite (Login_when_not_logged clientid w Hl).
    unfold handshake. rewrite Hm. unfold bind. rewrite Ho.
    unfold nil_error. cbv beta iota. rewrite Hs. cbv beta iota.
    rewrite Hu, He. reflexivity.
  - split; [exact Hl2|]. split.
    + destruct (Send_ok 0 payload resp w1 w2 Hs) as (f & rest & _ & _ & Hw2 & Hsock).
      subst w2. exact Hsock.
    + intros activity. apply SetActivity_skips. exact Hl2.
Qed.

(** C8 (login is idempotent once logged in).  After a login that
    succeeded from a session that was not logged in, the session is
    logged in and every further Login, whatever its client identifier,
    returns nil and changes nothing: no connection is opened and no
    frame is sent.  Over the whole sequence the bytes written are
    exactly one frame, with opcode 0 and the document
    {v: "1", client_id: <identifier>} as its payload. *)
Theorem Login_twice_one_handshake (clientid : string) (w w1 : World) :
  logged w = false ->
  client_Login clientid w = (Return nil_error, w1) ->
  logged w1 = true
  /\ (forall again, client_Login again w1 = (Return nil_error, w1))
  /\ Handshake_json {| V := "1"; ClientId := clientid |}
     = JObj [("v", JStr "1"); ("client_id", JStr clientid)]
  /\ exists payload,
       json_Marshal (Handshake_json {| V := "1"; ClientId := clientid |}) = inr payload
       /\ forall again,
            outbound (snd (client_Login again w1))
            = (outbound w ++ Codec.encode 0 (list_byte_of_string payload))%list.
Proof.
  intros Hl Hlogin.
  rewrite (Login_when_not_logged clientid w Hl) in Hlogin.
  destruct (handshake _ _ _ clientid w) as [[[e|]|e|e] w'] eqn:Hh; try discriminate.
  inversion Hlogin. subst w1. clear Hlogin.
  destruct (handshake_ok clientid w w' Hh) as (payload & Hm & Hout & _).
  assert (Hl1 : logged (set_logged true w') = true) by reflexivity.
  split; [exact Hl1|].
  split; [intros again; apply Login_when_logged; exact Hl1|].
  split; [reflexivity|].
  exists payload. split; [exact Hm|].
  intros again. rewrite (Login_when_logged again _ Hl1). cbn [snd].
  exact Hout.
Qed.

(** C9 (a failed login leaves the flag false).  Login always returns
    (it never panics).  When it returns an error, the error comes from
    one of its six failure points (marshalling the handshake, opening
    the socket, sending, parsing the reply, the error event tag,
    parsing the handshake metadata), the login flag is false afterwards,
    and so a following SetActivity is a no-op returning nil.  The flag
    is true after a nil return. *)
Theorem Login_error_leaves_flag_false (clientid : string) (w : World) :
  exists r w',
    client_Login clientid w = (Return r, w')
    /\ match r with
       | None => logged w' = true
       | Some e =>
           logged w = false
           /\ logged w' = false
           /\ (forall activity, client_SetActivity activity w' = (Return nil_error, w'))
           /\ (json_Marshal (Handshake_json {| V := "1"; ClientId := clientid |}) = inl e
               \/ fst (ipc.OpenSocket w) = Return (Some e)
               \/ (exists cause, e = Wrapped "failed to send handshake" cause)
               \/ (exists cause, e = Wrapped "failed to parse response" cause)
               \/ (exists data, e = DiscordError data)
               \/ (exists cause, e = Wrapped "failed to parse handshake response" cause))
       end.
Proof.
  destruct (logged w) eqn:Hl.
  - exists nil_error, w. split; [apply Login_when_logged; exact Hl | exact Hl].
  - rewrite (Login_when_not_logged clientid w Hl).
    destruct (handshake_run clientid w) as (r & w' & Hh & Hl' & Hcause).
    rewrite Hh. destruct r as [e|].
    + exists (Some e), w'. split; [reflexivity|].
      assert (Hf : logged w' = false) by congruence.
      split; [reflexivity|]. split; [exact Hf|].
      split; [intros activity; apply SetActivity_skips; exact Hf|].
      apply Hcause. reflexivity.
    + exists nil_error, (set_logged true w'). split; reflexivity.
Qed.

End ClientFacts.

(** ** Logout *)

(** Closing never fails when there is no connection, and always leaves
    none. *)
Lemma CloseSocket_run (w : World) :
  exists err w',
    ipc.CloseSocket w = (Return err, w')
    /\ socket w' = None /\ logged w' = logged w
    /\ (socket w = None -> err = nil_error /\ w' = w).
Proof.
  unfold ipc.CloseSocket.
  destruct (socket w) as [c|] eqn:Es.
  - eexists. eexists. split; [reflexivity|]. repeat split; discriminate.
  - exists nil_error, w. repeat split. exact Es.
Qed.

(** C4, as the code has it.  Logout always leaves the session not logged
    in and the connection closed, also when closing reports an error.  It
    returns normally exactly when closing reports no error; when closing
    reports an error it panics with that error.  A second Logout right
    after the first always returns normally and changes nothing, so two
    calls in a row end exactly as the first one did. *)
Theorem Logout_forces_closed (w : World) :
  exists r w',
    Logout w = (r, w')
    /\ logged w' = false
    /\ socket w' = None
    /\ (r = Return tt <-> fst (ipc.CloseSocket (set_logged false w)) = Return nil_error)
    /\ (forall e, r = Panic e <-> fst (ipc.CloseSocket (set_logged false w)) = Return (Some e))
    /\ Logout w' = (Return tt, w')
    /\ (Logout ;;; Logout) w = (r, w').
Proof.
  assert (Hsecond : forall w', logged w' = false -> socket w' = None ->
                               Logout w' = (Return tt, w')).
  { intros w' Hl Hs. unfold Logout, bind, modify.
    destruct w'. cbn in Hl, Hs. subst. reflexivity. }
  destruct (CloseSocket_run (set_logged false w)) as (err & w' & Hc & Hs & Hl & _).
  cbn [logged set_logged] in Hl.
  assert (Hrun : Logout w = (match err with Some e => Panic e | None => Return tt end, w')).
  { unfold Logout, bind, modify. rewrite Hc. destruct err; reflexivity. }
  exists (match err with Some e => Panic e | None => Return tt end), w'.
  rewrite Hc. cbn [fst].
  split; [exact Hrun|]. split; [exact Hl|]. split; [exact Hs|].
  split; [destruct err; split; (reflexivity || discriminate)|].
  split.
  { intros e'. destruct err as [e|]; split; intros H; inversion H; reflexivity. }
  split; [apply Hsecond; assumption|].
  unfold bind. rewrite Hrun.
  destruct err; [reflexivity | apply Hsecond; assumption].
Qed.

(** At a connection whose close fails, Logout panics. *)
Lemma Logout_panics_on_close_failure :
  fst (Logout Scenario.stuck) = Panic (IOError "close: input/output error")
  /\ socket Scenario.stuck <> None.
Proof. split; [reflexivity | discriminate]. Qed.

(** ** The shape of a nonce *)

Lemma hex_digit_high (b : byte) : lower_hex (hex_digit (Codec.Z_of_byte b / 16)) = true.
Proof. destruct b; reflexivity. Qed.

Lemma hex_digit_low (b : byte) : lower_hex (hex_digit (Codec.Z_of_byte b mod 16)) = true.
Proof. destruct b; reflexivity. Qed.

(** The version nibble: whatever the byte was, after masking it prints
    with a leading 4. *)
Lemma version_nibble (b : byte) :
  hex_digit (Codec.Z_of_byte (byte_or (byte_and b x0f) x40) / 16) = "4"%char.
Proof. destruct b; reflexivity. Qed.

Lemma rand_buffer_length (n : nat) (source : list byte) :
  List.length (firstn n source ++ repeat x00 (n - List.length (firstn n source))) = n.
Proof.
  rewrite length_app, repeat_length, length_firstn. lia.
Qed.

Lemma sixteen_bytes (buf : list byte) :
  List.length buf = 16%nat ->
  exists b0 b1 b2 b3 b4 b5 b6 b7 b8 b9 b10 b11 b12 b13 b14 b15,
    buf = [b0; b1; b2; b3; b4; b5; b6; b7; b8; b9; b10; b11; b12; b13; b14; b15].
Proof.
  intros H.
  do 16 (destruct buf as [|? buf]; [discriminate|]).
  destruct buf; [|discriminate].
  do 16 eexists. reflexivity.
Qed.

(** The print of a masked buffer, group by group. *)
Lemma nonce_text_shape (source : list byte) :
  exists g1 g2 g3 g4 g5,
    nonce_text (nonce_bytes source) = g1 ++ "-" ++ g2 ++ "-" ++ g3 ++ "-" ++ g4 ++ "-" ++ g5
    /\ String.length (g1 ++ "-" ++ g2 ++ "-" ++ g3 ++ "-" ++ g4 ++ "-" ++ g5) = 36%nat
    /\ (String.length g1 = 8 /\ String.length g2 = 4 /\ String.length g3 = 4
        /\ String.length g4 = 4 /\ String.length g5 = 12)%nat
    /\ (all_lower_hex g1 = true /\ all_lower_hex g2 = true /\ all_lower_hex g3 = true
        /\ all_lower_hex g4 = true /\ all_lower_hex g5 = true)
    /\ (exists rest, g3 = String "4" rest).
Proof.
  unfold nonce_text, nonce_bytes.
  pose proof (rand_buffer_length 16 source) as Hlen. fold (rand_buffer source) in Hlen.
  destruct (sixteen_bytes _ Hlen)
    as (b0 & b1 & b2 & b3 & b4 & b5 & b6 & b7 & b8 & b9 & b10 & b11 & b12 & b13 & b14 & b15 & Hbuf).
  rewrite Hbuf.
  cbn [nth assign slice firstn skipn Nat.sub].
  exists (hex [b0; b1; b2; b3]), (hex [b4; b5]),
         (hex [byte_or (byte_and b6 x0f) x40; b7]), (hex [b8; b9]),
         (hex [b10; b11; b12; b13; b14; b15]).
  split; [reflexivity|]. split; [reflexivity|]. split; [repeat split|].
  cbn [hex hex_byte String.append].
  split; [cbn [all_lower_hex]; rewrite ?hex_digit_high, ?hex_digit_low;
          repeat split; reflexivity|].
  rewrite version_nibble. eexists; reflexivity.
Qed.

(** What getNonce prints: the error of a [rand.Read] that returned one,
    and nothing else. *)
Lemma getNonce_stdout (w : World) :
  stdout (snd (getNonce w))
  = if (16 <=? List.length (entropy w))%nat then stdout w
    else if rand_fatal w then stdout w
    else (stdout w ++ [rand_fault w])%list.
Proof.
  unfold getNonce, bind, rand_Read. cbn [fst snd].
  destruct (16 <=? List.length (entropy w))%nat; [reflexivity|].
  destruct (rand_fatal w); reflexivity.
Qed.

(** C10, as the code has it.  Whenever [rand.Read] returns, with or
    without an error, getNonce returns: its result is five groups joined
    by hyphens, of 8, 4, 4, 4 and 12 characters, 36 characters in all,
    every character of a group a lowercase hexadecimal digit, and the
    third group begins with 4; an error of the random source is printed
    and not returned; the login flag and the connection are untouched.
    getNonce does not return when [rand.Read] does not: in a program
    built with Go 1.24 or later a random source that cannot fill the
    buffer ends the process, and nothing is printed. *)
Theorem getNonce_shape (w : World) :
  (rand_returns 16 w = true ->
   exists g1 g2 g3 g4 g5 w',
     getNonce w = (Return (g1 ++ "-" ++ g2 ++ "-" ++ g3 ++ "-" ++ g4 ++ "-" ++ g5), w')
     /\ String.length (g1 ++ "-" ++ g2 ++ "-" ++ g3 ++ "-" ++ g4 ++ "-" ++ g5) = 36%nat
     /\ (String.length g1 = 8 /\ String.length g2 = 4 /\ String.length g3 = 4
         /\ String.length g4 = 4 /\ String.length g5 = 12)%nat
     /\ (all_lower_hex g1 = true /\ all_lower_hex g2 = true /\ all_lower_hex g3 = true
         /\ all_lower_hex g4 = true /\ all_lower_hex g5 = true)
     /\ (exists rest, g3 = String "4" rest)
     /\ ((List.length (entropy w) < 16)%nat -> stdout w' = (stdout w ++ [rand_fault w])%list)
     /\ ((16 <= List.length (entropy w))%nat -> stdout w' = stdout w)
     /\ logged w' = logged w /\ socket w' = socket w /\ outbound w' = outbound w)
  /\ (rand_returns 16 w = false ->
      (List.length (entropy w) < 16)%nat
      /\ exists w',
           getNonce w = (Crash (rand_fault w), w')
           /\ stdout w' = stdout w /\ outbound w' = outbound w).
Proof.
  pose proof (getNonce_frame w) as (Hl & Hs & _ & _ & Ho & _).
  pose proof (getNonce_stdout w) as Hout.
  split.
  - intros Hr.
    destruct (getNonce_returns w Hr) as (nonce & Hn).
    pose proof (getNonce_prints w nonce Hn) as Hp. subst nonce.
    destruct (nonce_text_shape (entropy w)) as (g1 & g2 & g3 & g4 & g5 & Heq & Hrest).
    destruct (getNonce w) as [r w'] eqn:Hrun. cbn [fst snd] in *. subst r.
    exists g1, g2, g3, g4, g5, w'. rewrite <- Heq at 1.
    split; [reflexivity|].
    destruct Hrest as (H1 & H2 & H3 & H4).
    split; [exact H1|]. split; [exact H2|]. split; [exact H3|]. split; [exact H4|].
    unfold rand_returns in Hr.
    destruct (Nat.leb_spec 16 (List.length (entropy w))) as [Hfull|Hshort].
    + split; [intros Hlt; lia|]. split; [intros _; exact Hout|]. repeat split; assumption.
    + destruct (rand_fatal w); [discriminate|].
      split; [intros _; exact Hout|]. split; [intros Hge; lia|]. repeat split; assumption.
  - intros Hr. pose proof (getNonce_crashes w Hr) as Hc.
    unfold rand_returns in Hr.
    destruct (Nat.leb_spec 16 (List.length (entropy w))) as [Hfull|Hshort]; [discriminate|].
    destruct (rand_fatal w); [|discriminate].
    split; [exact Hshort|].
    destruct (getNonce w) as [r w'] eqn:Hrun. cbn [fst snd] in *. subst r.
    exists w'. repeat split; assumption.
Qed.

(** With the random source used up, in a program built with Go 1.24 or
    later, getNonce does not return, and neither does the activity update
    that called it: the process is ended and no frame has been written. *)
Lemma getNonce_ends_the_process :
  fst (getNonce (Scenario.dry [])) = Crash (IOError "getrandom: input/output error")
  /\ (forall nonce, fst (getNonce (Scenario.dry [])) <> Return nonce)
  /\ logged (Scenario.dry []) = true
  /\ fst (Scenario.SetActivity Scenario.playing (Scenario.dry []))
     = Crash (IOError "getrandom: input/output error")
  /\ outbound (snd (Scenario.SetActivity Scenario.playing (Scenario.dry []))) = [].
Proof.
  split; [reflexivity|]. split; [intros nonce H; discriminate H|].
  split; [reflexivity|]. split; reflexivity.
Qed.

(** The same source in a program built with an earlier Go: the failure is
    printed and the nonce is the print of the zeroes left in the buffer. *)
Example getNonce_prints_the_failure :
  fst (getNonce (Scenario.dry_returning [])) = Return "00000000-0000-4000-0000-000000000000"
  /\ stdout (snd (getNonce (Scenario.dry_returning [])))
     = [IOError "getrandom: input/output error"].
Proof. split; reflexivity. Qed.

(** ** What the encoder does with empty fields *)

Lemma assets_member (a : PayloadActivity) :
  member "assets" (PayloadActivity_json a) = Some (PayloadAssets_json (Assets a)).
Proof.
  unfold PayloadActivity_json, member, omitempty_int, omitempty_string.
  destruct (Type_ a =? 0);
    destruct (Details a =? EmptyString)%string;
    destruct (State a =? EmptyString)%string; reflexivity.
Qed.

(** C6 at the zero activity and at the activity of the example program.
    The nil [party], [timestamps] and [secrets] and the empty [buttons]
    are left out, but [assets], a struct value, is written although all
    its fields are empty: the zero activity is marshalled as
    {assets: {}}.  Every activity's document has an [assets] member.  The
    example's [type], set to Playing (0), is left out. *)
Theorem empty_assets_are_emitted :
  PayloadActivity_json Scenario.zero_activity = JObj [("assets", JObj [])]
  /\ keys (PayloadActivity_json Scenario.playing)
     = Some ["details"; "state"; "assets"; "timestamps"]
  /\ member "assets" (PayloadActivity_json Scenario.playing) = Some (JObj [])
  /\ forall a, member "assets" (PayloadActivity_json a) = Some (PayloadAssets_json (Assets a)).
Proof.
  split; [reflexivity|]. split; [reflexivity|]. split; [reflexivity|].
  exact assets_member.
Qed.

(** ** The theorems at concrete exchanges *)

Lemma codec_roundtrip_witness :
  Codec.valid 1 [x7b; x7d]
  /\ Codec.decode (Codec.encode 1 [x7b; x7d])
     = inr ({| Codec.opcode := 1; Codec.length := 2; Codec.payload := [x7b; x7d] |}, []).
Proof.
  assert (Hv : Codec.valid 1 [x7b; x7d]) by (unfold Codec.valid; simpl; lia).
  split; [exact Hv | exact (proj1 (codec_roundtrip 1 [x7b; x7d] Hv))].
Defined.

Lemma SetActivity_not_ready_is_noop_witness :
  logged (Scenario.start []) = false
  /\ Scenario.SetActivity Scenario.playing (Scenario.start [])
     = (Return nil_error, Scenario.start []).
Proof.
  split; [reflexivity|].
  exact (proj1 (SetActivity_not_ready_is_noop Text.Marshal Text.Parse
                  Scenario.playing (Scenario.start []) eq_refl)).
Defined.

Lemma SetActivity_reply_decides_witness :
  exists w2,
    Scenario.SetActivity Scenario.playing (Scenario.ready (Scenario.reply 1 Scenario.rejection))
    = (Return (Some (ActivityRejected (JStr "invalid client id"))), w2)
    /\ logged w2 = true.
Proof.
  destruct (SetActivity_reply_decides Text.Marshal Text.Parse Scenario.playing
              (Scenario.ready (Scenario.reply 1 Scenario.rejection))
              _ _ _ _ _ _ eq_refl eq_refl eq_refl eq_refl eq_refl)
    as (result & Hrun & _ & Hrej & _ & _ & Hl).
  eexists. split; [|exact Hl].
  unfold Scenario.SetActivity. rewrite Hrun, (Hrej eq_refl). reflexivity.
Defined.

(** A rejected login returns the rejection and leaves the connection it
    opened open: the socket is still endpoint 0 afterwards. *)
Lemma Login_rejected_connection_left_open :
  fst (Scenario.Login "abc123" (Scenario.start (Scenario.reply 0 Scenario.rejection)))
  = Return (Some (HandshakeRejected (JStr "invalid client id")))
  /\ socket (Scenario.start (Scenario.reply 0 Scenario.rejection)) = None
  /\ socket (snd (Scenario.Login "abc123" (Scenario.start (Scenario.reply 0 Scenario.rejection))))
     = Some 0%nat
  /\ socket (snd (Scenario.Login "abc123" (Scenario.start (Scenario.reply 0 Scenario.rejection))))
     <> None.
Proof.
  split; [reflexivity|]. split; [reflexivity|]. split; [reflexivity|].
  vm_compute. discriminate.
Qed.

Lemma Login_rejected_stays_not_ready_witness :
  exists w2,
    Scenario.Login "abc123" (Scenario.start (Scenario.reply 0 Scenario.rejection))
    = (Return (Some (HandshakeRejected (JStr "invalid client id"))), w2)
    /\ logged w2 = false
    /\ socket w2 <> None
    /\ Scenario.SetActivity Scenario.playing w2 = (Return nil_error, w2).
Proof.
  destruct (Login_rejected_stays_not_ready
              Text.Marshal Text.Parse Text.Unmarshal_HandshakeResponse
              "abc123" _ _ (Scenario.start (Scenario.reply 0 Scenario.rejection)) _ _ _
              eq_refl eq_refl eq_refl eq_refl eq_refl eq_refl)
    as (Hrun & Hl & Hs & Hnoop).
  eexists. split; [exact Hrun|]. split; [exact Hl|]. split; [exact Hs|].
  exact (Hnoop Scenario.playing).
Defined.

Lemma SetActivity_sends_one_frame_witness :
  exists result w2,
    SetActivity Text.Marshal Text.Parse Scenario.playing
      (Scenario.ready (Scenario.reply 1 Scenario.activity_ack))
    = (Return result, w2)
    /\ entropy w2 = skipn 16 (entropy (Scenario.ready (Scenario.reply 1 Scenario.activity_ack)))
    /\ match socket (Scenario.ready (Scenario.reply 1 Scenario.activity_ack)),
             write_fault (Scenario.ready (Scenario.reply 1 Scenario.activity_ack)) with
       | Some c, None =>
           outbound w2
           = (outbound (Scenario.ready (Scenario.reply 1 Scenario.activity_ack))
              ++ Codec.encode 1
                   (list_byte_of_string
                      (Text.write
                         (JObj [("cmd", JStr "SET_ACTIVITY");
                                ("args",
                                 JObj [("pid",
                                        JNum (pid (Scenario.ready
                                                     (Scenario.reply 1 Scenario.activity_ack))));
                                       ("activity", PayloadActivity_json Scenario.playing)]);
                                ("nonce",
                                 JStr (nonce_text
                                         (nonce_bytes
                                            (entropy (Scenario.ready
                                                        (Scenario.reply 1
                                                           Scenario.activity_ack))))))]))))%list
           /\ match Codec.decode (inbound (Scenario.ready
                                             (Scenario.reply 1 Scenario.activity_ack))) with
              | inr (f, rest) => inbound w2 = rest /\ socket w2 = Some c
              | inl err =>
                  result = Some (Wrapped "failed to send activity" err) /\ socket w2 = None
              end
       | Some c, Some msg =>
           outbound w2 = outbound (Scenario.ready (Scenario.reply 1 Scenario.activity_ack))
           /\ inbound w2 = inbound (Scenario.ready (Scenario.reply 1 Scenario.activity_ack))
           /\ result = Some (Wrapped "failed to send activity" (IOError msg))
           /\ socket w2 = None
       | None, _ =>
           outbound w2 = outbound (Scenario.ready (Scenario.reply 1 Scenario.activity_ack))
           /\ inbound w2 = inbound (Scenario.ready (Scenario.reply 1 Scenario.activity_ack))
           /\ result = Some (Wrapped "failed to send activity" NotConnected)
       end.
Proof.
  exact (SetActivity_sends_one_frame Text.Marshal Text.Parse Scenario.playing
           (Scenario.ready (Scenario.reply 1 Scenario.activity_ack))
           (Text.write
              (JObj [("cmd", JStr "SET_ACTIVITY");
                     ("args",
                      JObj [("pid",
                             JNum (pid (Scenario.ready
                                          (Scenario.reply 1 Scenario.activity_ack))));
                            ("activity", PayloadActivity_json Scenario.playing)]);
                     ("nonce",
                      JStr (nonce_text
                              (nonce_bytes
                                 (entropy (Scenario.ready
                                             (Scenario.reply 1 Scenario.activity_ack))))))]))
           eq_refl eq_refl eq_refl).
Defined.

(** A session can be logged in without a connection: after a login that
    succeeded and an activity update whose reply broke off, the flag is
    still set and the connection is gone.  The next activity update
    writes no frame and reads nothing; it returns the send failure. *)
Lemma SetActivity_without_connection_writes_nothing :
  logged Scenario.hung_up = true
  /\ socket Scenario.hung_up = None
  /\ fst (Scenario.SetActivity Scenario.playing Scenario.hung_up)
     = Return (Some (Wrapped "failed to send activity" NotConnected))
  /\ outbound (snd (Scenario.SetActivity Scenario.playing Scenario.hung_up))
     = outbound Scenario.hung_up
  /\ inbound (snd (Scenario.SetActivity Scenario.playing Scenario.hung_up))
     = inbound Scenario.hung_up.
Proof. repeat split; vm_compute; reflexivity. Qed.

(** The bytes on the wire after the example program's activity update:
    one frame, opcode 1, carrying the request document; the reply frame
    has been consumed. *)
Example SetActivity_wire :
  outbound (snd (Scenario.SetActivity Scenario.playing
                   (Scenario.ready (Scenario.reply 1 Scenario.activity_ack))))
  = Codec.encode 1
      (list_byte_of_string
         (Text.write
            (JObj [("cmd", JStr "SET_ACTIVITY");
                   ("args", JObj [("pid", JNum 4242);
                                  ("activity",
                                   JObj [("details", JStr "Playing Minecraft");
                                         ("state", JStr "In Game");
                                         ("assets", JObj []);
                                         ("timestamps", JObj [("start", JNum 1700000000)])])]);
                   ("nonce", JStr "01234567-89ab-4def-fedc-ba9876543210")])))
  /\ inbound (snd (Scenario.SetActivity Scenario.playing
                     (Scenario.ready (Scenario.reply 1 Scenario.activity_ack)))) = [].
Proof. split; vm_compute; reflexivity. Qed.

Lemma Login_twice_one_handshake_witness :
  exists w1,
    Scenario.Login "abc123" (Scenario.start (Scenario.reply 0 Scenario.handshake_ack))
    = (Return nil_error, w1)
    /\ Scenario.Login "another-id" w1 = (Return nil_error, w1)
    /\ outbound (snd (Scenario.Login "another-id" w1))
       = Codec.encode 0
           (list_byte_of_string
              (Text.write (JObj [("v", JStr "1"); ("client_id", JStr "abc123")]))).
Proof.
  eexists. split; [reflexivity|].
  destruct (Login_twice_one_handshake
              Text.Marshal Text.Parse Text.Unmarshal_HandshakeResponse
              "abc123" (Scenario.start (Scenario.reply 0 Scenario.handshake_ack)) _
              eq_refl eq_refl)
    as (_ & Hagain & _ & payload & Hm & Hout).
  split; [exact (Hagain "another-id")|].
  unfold Scenario.Login. rewrite (Hout "another-id").
  inversion Hm. reflexivity.
Defined.

(** The failure points of Login, each reached at a concrete world: no
    endpoint, a refused write, a stream that ends before a whole reply, a
    reply that is not JSON, the error event tag, and metadata of the wrong
    shape.  The flag is false after each. *)
Example Login_failure_points :
  Scenario.Login "abc123" Scenario.nobody_listening
  = (Return (Some EndpointExhausted), Scenario.nobody_listening)
  /\ fst (Scenario.Login "abc123" Scenario.broken_pipe)
     = Return (Some (Wrapped "failed to send handshake" (IOError "write: broken pipe")))
  /\ fst (Scenario.Login "abc123" (Scenario.start [x01; x00; x00]))
     = Return (Some (Wrapped "failed to send handshake" TruncatedFrame))
  /\ fst (Scenario.Login "abc123" (Scenario.start (Codec.encode 1 [x7b])))
     = Return (Some (Wrapped "failed to parse response" (JSONError "invalid JSON text")))
  /\ fst (Scenario.Login "abc123" (Scenario.start (Scenario.reply 1 Scenario.rejection)))
     = Return (Some (DiscordError (JStr "invalid client id")))
  /\ fst (Scenario.Login "abc123" (Scenario.start (Scenario.reply 1 Scenario.odd_ack)))
     = Return (Some (Wrapped "failed to parse handshake response"
                       (JSONError
                          "cannot unmarshal into Go value of type client.HandshakeResponse")))
  /\ logged (snd (Scenario.Login "abc123" (Scenario.start (Scenario.reply 1 Scenario.odd_ack))))
     = false.
Proof. repeat split; vm_compute; reflexivity. Qed.

(** * Further properties of the client *)

(** ** An activity update and the login flag *)

(** X1.  No activity update and no login ever clears the login flag.
    Whatever SetActivity comes to (nil, a failed send, an unreadable
    reply, a rejection, or the process ended by the random source) the
    flag is as it was; SetActivity never panics, and it returns whenever
    [rand.Read] does.  A Login started logged in leaves the flag set.
    The flag is false after every Logout, also one that panics. *)
Theorem SetActivity_keeps_flag
    (json_Marshal : json -> error + string) (json_Parse : string -> error + json)
    (Unmarshal_HandshakeResponse : string -> error + HandshakeResponse)
    (activity : PayloadActivity) (clientid : string) (w : World) :
  logged (snd (SetActivity json_Marshal json_Parse activity w)) = logged w
  /\ (forall e, fst (SetActivity json_Marshal json_Parse activity w) <> Panic e)
  /\ (rand_returns 16 w = true ->
      exists r, fst (SetActivity json_Marshal json_Parse activity w) = Return r)
  /\ (logged w = true ->
      logged (snd (Login json_Marshal json_Parse Unmarshal_HandshakeResponse clientid w))
      = true)
  /\ logged (snd (Logout w)) = false.
Proof.
  assert (Hrun : logged (snd (SetActivity json_Marshal json_Parse activity w)) = logged w
                 /\ (forall e, fst (SetActivity json_Marshal json_Parse activity w) <> Panic e)
                 /\ ((exists nonce, fst (getNonce w) = Return nonce) ->
                     exists r, fst (SetActivity json_Marshal json_Parse activity w) = Return r)).
  { destruct (logged w) eqn:Hl.
    2:{ rewrite (SetActivity_skips json_Marshal json_Parse activity w Hl).
        split; [exact Hl|]. split; [discriminate | intros _; eexists; reflexivity]. }
    pose proof (getNonce_frame w) as (Hl1 & _).
    pose proof (getNonce_never_panics w) as Hnp.
    destruct (getNonce w) as [[nonce|e|e] w1] eqn:Hn; cbn [fst snd] in Hl1, Hnp.
    - rewrite (SetActivity_unfold json_Marshal json_Parse activity w w1 nonce Hl Hn).
      destruct (json_Marshal (request w activity nonce)) as [me|payload].
      { cbn [fst snd]. split; [congruence|].
        split; [discriminate | intros _; eexists; reflexivity]. }
      unfold bind.
      destruct (Send_run 1 payload w1) as (r & w2 & Hs & Hl2). rewrite Hs.
      assert (H2 : logged w2 = true) by congruence.
      destruct r as [se|resp];
        [cbn [fst snd]; split; [exact H2|];
         split; [discriminate | intros _; eexists; reflexivity]|].
      destruct (Unmarshal_Response json_Parse resp) as [pe|response];
        [cbn [fst snd]; split; [exact H2|];
         split; [discriminate | intros _; eexists; reflexivity]|].
      destruct (Event response =? "ERROR")%string;
        (cbn [fst snd]; split; [exact H2|];
         split; [discriminate | intros _; eexists; reflexivity]).
    - exfalso. exact (Hnp e eq_refl).
    - assert (Hc : SetActivity json_Marshal json_Parse activity w = (Crash e, w1)).
      { unfold SetActivity, bind, get. rewrite Hl. cbn [negb]. rewrite Hn. reflexivity. }
      rewrite Hc. cbn [fst snd]. split; [congruence|].
      split; [discriminate | intros (nonce & Hbad); discriminate Hbad]. }
  destruct Hrun as (Hflag & Hnp & Hret).
  split; [exact Hflag|]. split; [exact Hnp|].
  split; [intros Hr; apply Hret; apply getNonce_returns; exact Hr|].
  split.
  - intros Hl.
    rewrite (Login_when_logged json_Marshal json_Parse Unmarshal_HandshakeResponse
               clientid w Hl).
    exact Hl.
  - destruct (CloseSocket_run (set_logged false w)) as (err & w' & Hc & _ & Hl & _).
    unfold Logout, bind, modify. rewrite Hc.
    destruct err; exact Hl.
Qed.

(** ** Logging in again *)

Lemma Logout_returns (w w1 : World) :
  Logout w = (Return tt, w1) ->
  logged w1 = false /\ outbound w1 = outbound w /\ inbound w1 = inbound w.
Proof.
  unfold Logout, bind, modify, ipc.CloseSocket, panic, ret. cbn [socket set_logged].
  destruct (socket w) as [c|].
  - change (close_fault (set_logged false w)) with (close_fault w).
    destruct (close_fault w); cbn [option_map]; intros H; inversion H.
    repeat split.
  - intros H. inversion H. repeat split.
Qed.

(** X2.  Logout undoes the short cut of Login: a Login that succeeds
    after a Logout has run the whole handshake again, so exactly one more
    frame, with opcode 0 and the marshalled handshake as payload, has been
    written, and the session is logged in again. *)
Theorem Login_after_Logout_handshakes_again
    (json_Marshal : json -> error + string) (json_Parse : string -> error + json)
    (Unmarshal_HandshakeResponse : string -> error + HandshakeResponse)
    (clientid : string) (w w1 w2 : World) :
  Logout w = (Return tt, w1) ->
  Login json_Marshal json_Parse Unmarshal_HandshakeResponse clientid w1
  = (Return nil_error, w2) ->
  exists payload,
    json_Marshal (Handshake_json {| V := "1"; ClientId := clientid |}) = inr payload
    /\ outbound w2 = (outbound w ++ Codec.encode 0 (list_byte_of_string payload))%list
    /\ logged w2 = true.
Proof.
  intros Hout Hin.
  destruct (Logout_returns w w1 Hout) as (Hl1 & Ho1 & _).
  rewrite (Login_when_not_logged json_Marshal json_Parse Unmarshal_HandshakeResponse
             clientid w1 Hl1) in Hin.
  destruct (handshake json_Marshal json_Parse Unmarshal_HandshakeResponse clientid w1)
    as [[[e|]|e|e] w'] eqn:Hh; try discriminate.
  inversion Hin. subst w2.
  destruct (handshake_ok json_Marshal json_Parse Unmarshal_HandshakeResponse
              clientid w1 w' Hh) as (payload & Hm & Hw & _).
  exists payload. split; [exact Hm|]. split; [|reflexivity].
  cbn [outbound set_logged]. rewrite Hw, Ho1. reflexivity.
Qed.

(** ** Nonces and random bytes *)

Lemma unhex_hex_byte (b : byte) : unhex_byte (hex_byte b) = b.
Proof. destruct b; reflexivity. Qed.

Lemma hex_cons_inj (b b' : byte) (l l' : list byte) (s s' : string) :
  hex (b :: l) ++ s = hex (b' :: l') ++ s' ->
  b = b' /\ hex l ++ s = hex l' ++ s'.
Proof.
  cbn [hex hex_byte String.append]. intros H.
  injection H as Hh Hl Hrest.
  split; [|exact Hrest].
  rewrite <- (unhex_hex_byte b), <- (unhex_hex_byte b').
  unfold hex_byte. rewrite Hh, Hl. reflexivity.
Qed.

Lemma hex_last_inj (b b' : byte) (l l' : list byte) :
  hex (b :: l) = hex (b' :: l') -> b = b' /\ hex l = hex l'.
Proof.
  cbn [hex hex_byte String.append]. intros H.
  injection H as Hh Hl Hrest.
  split; [|exact Hrest].
  rewrite <- (unhex_hex_byte b), <- (unhex_hex_byte b').
  unfold hex_byte. rewrite Hh, Hl. reflexivity.
Qed.

Lemma hex_group_end (s s' : string) :
  hex [] ++ "-" ++ s = hex [] ++ "-" ++ s' -> s = s'.
Proof. cbn [hex String.append]. intros H. injection H as H. exact H. Qed.

(** Printing is injective on buffers of sixteen bytes. *)
Lemma nonce_text_inj (buf buf' : list byte) :
  List.length buf = 16%nat -> List.length buf' = 16%nat ->
  nonce_text buf = nonce_text buf' -> buf = buf'.
Proof.
  intros Hl Hl'.
  destruct (sixteen_bytes buf Hl)
    as (b0 & b1 & b2 & b3 & b4 & b5 & b6 & b7 & b8 & b9 & b10 & b11 & b12 & b13
        & b14 & b15 & ->).
  destruct (sixteen_bytes buf' Hl')
    as (c0 & c1 & c2 & c3 & c4 & c5 & c6 & c7 & c8 & c9 & c10 & c11 & c12 & c13
        & c14 & c15 & ->).
  unfold nonce_text. cbn [slice firstn skipn Nat.sub].
  intros H.
  repeat match goal with
         | H : hex (_ :: _) ++ _ = hex (_ :: _) ++ _ |- _ =>
             apply hex_cons_inj in H; destruct H as [? H]; subst
         | H : hex [] ++ _ = hex [] ++ _ |- _ => apply hex_group_end in H
         | H : hex (_ :: _) = hex (_ :: _) |- _ =>
             apply hex_last_inj in H; destruct H as [? H]; subst
         end.
  reflexivity.
Qed.

Lemma assign_length {A : Type} (i : nat) (x : A) (l : list A) :
  List.length (assign i x l) = List.length l.
Proof.
  revert i. induction l as [|y l IH]; intros i; [destruct i; reflexivity|].
  destruct i; cbn [assign List.length]; [reflexivity|]. rewrite IH. reflexivity.
Qed.

Lemma nonce_bytes_length (source : list byte) : List.length (nonce_bytes source) = 16%nat.
Proof.
  unfold nonce_bytes. rewrite assign_length. apply rand_buffer_length.
Qed.

Lemma Return_inj {A : Type} (a b : A) : Return a = Return b -> a = b.
Proof. intros H. inversion H. reflexivity. Qed.

Lemma mask_keeps_low_nibble (b : byte) :
  byte_and (byte_or (byte_and b x0f) x40) x0f = byte_and b x0f.
Proof. destruct b; reflexivity. Qed.

Lemma mask_from_low_nibble (b b' : byte) :
  byte_and b x0f = byte_and b' x0f ->
  byte_or (byte_and b x0f) x40 = byte_or (byte_and b' x0f) x40.
Proof. intros H. rewrite H. reflexivity. Qed.

(** X3.  A nonce records its random bytes: two calls of getNonce that
    return give the same text exactly when their sixteen-byte buffers
    agree in every byte other than byte 6 and in the low four bits of
    byte 6.  Only the four bits that the version digit replaces are
    lost. *)
Theorem nonce_records_random_bytes (w1 w2 : World) (n1 n2 : string) :
  fst (getNonce w1) = Return n1 ->
  fst (getNonce w2) = Return n2 ->
  n1 = n2
  <-> (byte_and (nth 6 (rand_buffer (entropy w1)) x00) x0f
       = byte_and (nth 6 (rand_buffer (entropy w2)) x00) x0f
       /\ forall i, i <> 6%nat ->
            nth i (rand_buffer (entropy w1)) x00 = nth i (rand_buffer (entropy w2)) x00).
Proof.
  intros Hr1 Hr2.
  rewrite (getNonce_prints w1 n1 Hr1), (getNonce_prints w2 n2 Hr2).
  pose proof (nonce_bytes_length (entropy w1)) as L1.
  pose proof (nonce_bytes_length (entropy w2)) as L2.
  unfold nonce_bytes in *.
  pose proof (rand_buffer_length 16 (entropy w1)) as R1.
  pose proof (rand_buffer_length 16 (entropy w2)) as R2.
  fold (rand_buffer (entropy w1)) in R1. fold (rand_buffer (entropy w2)) in R2.
  destruct (sixteen_bytes _ R1)
    as (b0 & b1 & b2 & b3 & b4 & b5 & b6 & b7 & b8 & b9 & b10 & b11 & b12 & b13
        & b14 & b15 & E1).
  destruct (sixteen_bytes _ R2)
    as (c0 & c1 & c2 & c3 & c4 & c5 & c6 & c7 & c8 & c9 & c10 & c11 & c12 & c13
        & c14 & c15 & E2).
  rewrite E1, E2 in *. cbn [nth assign] in *.
  split.
  - intros H.
    apply (nonce_text_inj _ _ L1 L2) in H.
    injection H as -> -> -> -> -> -> Hm -> -> -> -> -> -> -> -> ->.
    split.
    + rewrite <- (mask_keeps_low_nibble b6), <- (mask_keeps_low_nibble c6), Hm. reflexivity.
    + intros i Hi.
      do 16 (destruct i as [|i]; [first [reflexivity | contradiction]|]).
      destruct i; reflexivity.
  - intros [Hm Hrest].
    pose proof (Hrest 0%nat ltac:(discriminate)) as H0.
    pose proof (Hrest 1%nat ltac:(discriminate)) as H1.
    pose proof (Hrest 2%nat ltac:(discriminate)) as H2.
    pose proof (Hrest 3%nat ltac:(discriminate)) as H3.
    pose proof (Hrest 4%nat ltac:(discriminate)) as H4.
    pose proof (Hrest 5%nat ltac:(discriminate)) as H5.
    pose proof (Hrest 7%nat ltac:(discriminate)) as H7.
    pose proof (Hrest 8%nat ltac:(discriminate)) as H8.
    pose proof (Hrest 9%nat ltac:(discriminate)) as H9.
    pose proof (Hrest 10%nat ltac:(discriminate)) as H10.
    pose proof (Hrest 11%nat ltac:(discriminate)) as H11.
    pose proof (Hrest 12%nat ltac:(discriminate)) as H12.
    pose proof (Hrest 13%nat ltac:(discriminate)) as H13.
    pose proof (Hrest 14%nat ltac:(discriminate)) as H14.
    pose proof (Hrest 15%nat ltac:(discriminate)) as H15.
    cbn [nth] in *. subst.
    rewrite (mask_from_low_nibble b6 c6 Hm). reflexivity.
Qed.


(** ** The members of an activity document *)

(** X5.  In the document marshalled for an activity every optional
    member other than [assets] is present exactly when its field is
    non-empty (a non-zero type, a non-empty string, a non-nil pointer, a
    non-empty slice), and then holds the field's value; no member name
    occurs twice. *)
Theorem activity_members (a : PayloadActivity) :
  member "type" (PayloadActivity_json a)
  = (if Type_ a =? 0 then None else Some (JNum (Type_ a)))
  /\ member "details" (PayloadActivity_json a)
     = (if (Details a =? EmptyString)%string then None else Some (JStr (Details a)))
  /\ member "state" (PayloadActivity_json a)
     = (if (State a =? EmptyString)%string then None else Some (JStr (State a)))
  /\ member "party" (PayloadActivity_json a) = option_map PayloadParty_json (Party a)
  /\ member "timestamps" (PayloadActivity_json a)
     = option_map PayloadTimestamps_json (Timestamps a)
  /\ member "secrets" (PayloadActivity_json a) = option_map PayloadSecrets_json (Secrets a)
  /\ member "buttons" (PayloadActivity_json a)
     = match Buttons a with
       | [] => None
       | _ :: _ => Some (JArr (map (ptr_json PayloadButton_json) (Buttons a)))
       end
  /\ exists ks, keys (PayloadActivity_json a) = Some ks /\ NoDup ks.
Proof.
  unfold PayloadActivity_json, member, keys, omitempty_int, omitempty_string,
    omitempty_ptr, omitempty_slice.
  destruct (Type_ a =? 0);
    destruct (Details a =? EmptyString)%string;
    destruct (State a =? EmptyString)%string;
    destruct (Party a); destruct (Timestamps a); destruct (Secrets a);
    destruct (Buttons a);
    cbn [app assoc String.eqb Ascii.eqb Bool.eqb option_map map fst];
    repeat (split; [reflexivity|]);
    (eexists; split; [reflexivity|]);
    repeat constructor; cbn [In]; intuition discriminate.
Qed.

(** ** Decoding a reply *)

Lemma Response_fill_app (m1 m2 : list (string * json)) (r : Response) (saved : option error) :
  Response_fill (m1 ++ m2) r saved
  = Response_fill m2 (fst (Response_fill m1 r saved)) (snd (Response_fill m1 r saved)).
Proof.
  revert r saved. induction m1 as [|kv m1 IH]; intros r saved; [reflexivity|].
  cbn [app Response_fill]. destruct (Response_set r kv) as [r' e]. apply IH.
Qed.

Lemma Response_fill_saved (members : list (string * json)) (r : Response) (e : error) :
  snd (Response_fill members r (Some e)) = Some e.
Proof.
  revert r. induction members as [|kv rest IH]; intros r; [reflexivity|].
  cbn [Response_fill]. destruct (Response_set r kv) as [r' e']. apply IH.
Qed.

Lemma Response_set_ill_typed (r : Response) (k : string) (v : json) :
  fold_name k = "cmd" \/ fold_name k = "evt" \/ fold_name k = "nonce" ->
  (forall s, v <> JStr s) -> v <> JNull ->
  exists e, snd (Response_set r (k, v)) = Some e.
Proof.
  intros Hk Hs Hn. unfold Response_set. cbn [fst snd].
  destruct Hk as [-> | [-> | ->]]; cbn [String.eqb Ascii.eqb Bool.eqb];
    destruct v; try (exfalso; apply Hn; reflexivity);
    try (exfalso; eapply Hs; reflexivity);
    cbn [into_string snd]; eexists; reflexivity.
Qed.

(** X6.  A reply in which [cmd], [evt] or [nonce] (in any letter case)
    holds something that is neither a string nor null cannot be decoded,
    wherever that member stands and whatever the other members are: the
    caller gets a parse failure, not a rejection read from the tag. *)
Theorem ill_typed_member_fails_decoding
    (members : list (string * json)) (k : string) (v : json) :
  In (k, v) members ->
  fold_name k = "cmd" \/ fold_name k = "evt" \/ fold_name k = "nonce" ->
  (forall s, v <> JStr s) -> v <> JNull ->
  exists e, decode_Response (JObj members) = inl e.
Proof.
  intros Hin Hk Hs Hn.
  apply in_split in Hin. destruct Hin as (m1 & m2 & ->).
  unfold decode_Response.
  rewrite Response_fill_app.
  destruct (Response_fill m1 Response_zero None) as [r1 s1]. cbn [fst snd].
  cbn [Response_fill].
  destruct (Response_set_ill_typed r1 k v Hk Hs Hn) as (e & He).
  destruct (Response_set r1 (k, v)) as [r2 e2]. cbn [snd] in He. subst e2.
  assert (Hsaved : exists e', first_error s1 (Some e) = Some e').
  { destruct s1 as [e1|]; eexists; reflexivity. }
  destruct Hsaved as (e' & ->).
  pose proof (Response_fill_saved m2 r2 e') as Hs2.
  destruct (Response_fill m2 r2 (Some e')) as [r3 s3]. cbn [snd] in Hs2. subst s3.
  exists e'. reflexivity.
Qed.

(** X7.  The event tag of a decoded reply is the string of its last
    member named [evt] in any letter case ([EVT], [Evt], ...): a later
    member overrides an earlier one, and members with other names after
    it do not matter. *)
Theorem last_evt_member_decides
    (before after : list (string * json)) (k s : string) (r : Response) :
  fold_name k = "evt" ->
  (forall kv, In kv after -> fold_name (fst kv) <> "evt") ->
  decode_Response (JObj (before ++ (k, JStr s) :: after)) = inr r ->
  Event r = s.
Proof.
  intros Hk Hafter. unfold decode_Response.
  rewrite Response_fill_app.
  destruct (Response_fill before Response_zero None) as [r1 s1]. cbn [fst snd].
  cbn [Response_fill].
  assert (Hset : Event (fst (Response_set r1 (k, JStr s))) = s).
  { unfold Response_set. cbn [fst snd]. rewrite Hk. reflexivity. }
  destruct (Response_set r1 (k, JStr s)) as [r2 e2]. cbn [fst] in Hset.
  pose proof (Response_fill_keeps_Event after Hafter r2 (first_error s1 e2)) as Hkeep.
  destruct (Response_fill after r2 (first_error s1 e2)) as [r3 [e3|]]; [discriminate|].
  intros H. inversion H. subst r3. cbn [fst] in Hkeep. congruence.
Qed.

(** ** The example program *)

Lemma OpenSocket_keeps_pid (w : World) :
  pid (snd (ipc.OpenSocket w)) = pid w /\ entropy (snd (ipc.OpenSocket w)) = entropy w.
Proof.
  unfold ipc.OpenSocket.
  destruct (find (ipc.accepts w) ipc.candidates); split; reflexivity.
Qed.

Lemma Send_keeps_pid (op : Z) (body : string) (w : World) :
  pid (snd (ipc.Send op body w)) = pid w /\ entropy (snd (ipc.Send op body w)) = entropy w.
Proof.
  unfold ipc.Send.
  destruct (socket w); [|split; reflexivity].
  destruct (write_fault w); [split; reflexivity|].
  destruct (Codec.decode _) as [err|[f rest]]; split; reflexivity.
Qed.

(** The handshake leaves the process id and the random source alone. *)
Lemma handshake_keeps_pid
    (json_Marshal : json -> error + string) (json_Parse : string -> error + json)
    (Unmarshal_HandshakeResponse : string -> error + HandshakeResponse)
    (clientid : string) (w : World) :
  pid (snd (handshake json_Marshal json_Parse Unmarshal_HandshakeResponse clientid w)) = pid w
  /\ entropy (snd (handshake json_Marshal json_Parse Unmarshal_HandshakeResponse clientid w))
     = entropy w.
Proof.
  unfold handshake.
  destruct (json_Marshal (Handshake_json _)) as [me|payload]; [split; reflexivity|].
  unfold bind.
  pose proof (OpenSocket_keeps_pid w) as [Hp1 He1].
  destruct (ipc.OpenSocket w) as [[[oe|]|pe|pe] w1]; cbn [snd] in Hp1, He1;
    try (split; assumption).
  pose proof (Send_keeps_pid 0 payload w1) as [Hp2 He2].
  assert (Hp : pid (snd (ipc.Send 0 payload w1)) = pid w) by congruence.
  assert (He : entropy (snd (ipc.Send 0 payload w1)) = entropy w) by congruence.
  destruct (ipc.Send 0 payload w1) as [[[se|resp]|pe|pe] w2]; cbn [snd] in Hp, He;
    try (split; assumption).
  destruct (Unmarshal_Response json_Parse resp) as [pe|response]; [split; assumption|].
  destruct (Event response =? "ERROR")%string; [split; assumption|].
  destruct (json_Marshal (Data response)) as [skipped|respData]; [split; assumption|].
  destruct (Unmarshal_HandshakeResponse respData); split; assumption.
Qed.

(** An activity update that returns nil wrote exactly one frame. *)
Lemma SetActivity_ok
    (json_Marshal : json -> error + string) (json_Parse : string -> error + json)
    (activity : PayloadActivity) (w w' : World) :
  logged w = true ->
  SetActivity json_Marshal json_Parse activity w = (Return nil_error, w') ->
  exists payload,
    json_Marshal (request w activity (nonce_text (nonce_bytes (entropy w)))) = inr payload
    /\ outbound w' = (outbound w ++ Codec.encode 1 (list_byte_of_string payload))%list
    /\ logged w' = true.
Proof.
  intros Hl.
  pose proof (getNonce_frame w) as (Hl1 & _ & _ & _ & Ho1 & _).
  pose proof (getNonce_prints w) as Hp.
  destruct (getNonce w) as [[nonce|e|e] w1] eqn:Hn; cbn [fst snd] in Hl1, Ho1, Hp.
  2,3: (unfold SetActivity, bind, get; rewrite Hl; cbn [negb]; rewrite Hn;
        intros Hbad; discriminate Hbad).
  specialize (Hp nonce eq_refl). subst nonce.
  rewrite (SetActivity_unfold json_Marshal json_Parse activity w w1 _ Hl Hn).
  destruct (json_Marshal (request w activity _)) as [me|payload]; [discriminate|].
  unfold bind.
  destruct (ipc.Send 1 payload w1) as [[[se|resp]|pe|pe] w2] eqn:Hs; try discriminate.
  destruct (Send_ok 1 payload resp w1 w2 Hs) as (f & rest & _ & _ & Hw2 & _).
  destruct (Unmarshal_Response json_Parse resp) as [ue|response]; [discriminate|].
  destruct (Event response =? "ERROR")%string; [discriminate|].
  intros H. inversion H. subst w'. exists payload. split; [reflexivity|].
  subst w2. cbn [outbound set_inbound set_outbound logged]. rewrite Ho1.
  split; [reflexivity | congruence].
Qed.

(** X8.  When the example program, started not logged in, gets as far
    as its last line, it has written exactly two frames and nothing else:
    first the handshake for "your-client-id" with opcode 0, then with
    opcode 1 the update for the activity "Playing Minecraft" / "In Game"
    whose start is the clock reading taken after the login (wrapped to 64
    bits); the session is logged in and the line is "Sleeping...". *)
Theorem main_writes_two_frames
    (json_Marshal : json -> error + string) (json_Parse : string -> error + json)
    (Unmarshal_HandshakeResponse : string -> error + HandshakeResponse)
    (now : Z) (w w' : World) (line : string) :
  logged w = false ->
  main json_Marshal json_Parse Unmarshal_HandshakeResponse now w = (Return line, w') ->
  line = "Sleeping..."
  /\ logged w' = true
  /\ PayloadActivity_json (main_activity (now mod 2 ^ 64))
     = JObj [("details", JStr "Playing Minecraft"); ("state", JStr "In Game");
             ("assets", JObj []);
             ("timestamps", JObj [("start", JNum (now mod 2 ^ 64))])]
  /\ exists hello update,
       json_Marshal (Handshake_json {| V := "1"; ClientId := "your-client-id" |}) = inr hello
       /\ json_Marshal (request w (main_activity (now mod 2 ^ 64))
                          (nonce_text (nonce_bytes (entropy w)))) = inr update
       /\ outbound w'
          = (outbound w ++ Codec.encode 0 (list_byte_of_string hello)
             ++ Codec.encode 1 (list_byte_of_string update))%list.
Proof.
  intros Hl. unfold main. unfold bind at 1.
  rewrite (Login_when_not_logged json_Marshal json_Parse Unmarshal_HandshakeResponse
             "your-client-id" w Hl).
  pose proof (handshake_keeps_pid json_Marshal json_Parse Unmarshal_HandshakeResponse
                "your-client-id" w) as [Hpid Hent].
  destruct (handshake json_Marshal json_Parse Unmarshal_HandshakeResponse
              "your-client-id" w) as [[[e|]|e|e] w1] eqn:Hh;
    try (unfold panic; intros Hbad; discriminate Hbad).
  cbn [snd] in Hpid, Hent.
  destruct (handshake_ok json_Marshal json_Parse Unmarshal_HandshakeResponse
              "your-client-id" w w1 Hh) as (hello & Hm & Ho1 & _).
  unfold bind, nil_error. cbv beta iota.
  destruct (SetActivity json_Marshal json_Parse (main_activity (now mod 2 ^ 64))
              (set_logged true w1)) as [[[e|]|e|e] w2] eqn:Hs;
    try (unfold panic; intros Hbad; discriminate Hbad).
  destruct (SetActivity_ok json_Marshal json_Parse (main_activity (now mod 2 ^ 64))
              (set_logged true w1) w2 (eq_refl true) Hs)
    as (update & Hu & Ho2 & Hl2).
  unfold ret. intros H. inversion H. subst line w'.
  split; [reflexivity|]. split; [exact Hl2|]. split; [reflexivity|].
  exists hello, update. split; [exact Hm|]. split.
  - unfold request in *. cbn [pid entropy set_logged] in Hu. rewrite Hpid, Hent in Hu. exact Hu.
  - rewrite Ho2. cbn [outbound set_logged]. rewrite Ho1, <- app_assoc. reflexivity.
Qed.

(** * Properties of the Modrinth client *)

(** ** Escaping *)

Lemma escape_byte_chars (c x : ascii) :
  Modrinth.count_char x (Modrinth.escape_byte c) <> 0%nat -> Modrinth.escaped_char x = true.
Proof.
  unfold Modrinth.escape_byte.
  destruct (Modrinth.unreserved c) eqn:Hu.
  - cbn [Modrinth.count_char]. destruct (Ascii.eqb_spec c x) as [->|]; [|intros H; contradiction H; reflexivity].
    intros _. unfold Modrinth.escaped_char. rewrite Hu. reflexivity.
  - destruct (c =? " ")%char.
    + cbn [Modrinth.count_char].
      destruct (Ascii.eqb_spec "+"%char x) as [<-|]; [reflexivity | intros H; contradiction H; reflexivity].
    + cbn [Modrinth.count_char].
      destruct (Ascii.eqb_spec "%"%char x) as [<-|]; [reflexivity|].
      destruct (Ascii.eqb_spec (Modrinth.upperhex (nat_of_ascii c / 16)) x) as [<-|].
      { intros _. clear. destruct c as [[] [] [] [] [] [] [] []]; reflexivity. }
      destruct (Ascii.eqb_spec (Modrinth.upperhex (nat_of_ascii c mod 16)) x) as [<-|].
      { intros _. clear. destruct c as [[] [] [] [] [] [] [] []]; reflexivity. }
      intros H. contradiction H. reflexivity.
Qed.

Lemma count_char_app (x : ascii) (s t : string) :
  Modrinth.count_char x (s ++ t) = (Modrinth.count_char x s + Modrinth.count_char x t)%nat.
Proof.
  induction s as [|c s IH]; [reflexivity|].
  cbn [String.append Modrinth.count_char]. rewrite IH. lia.
Qed.

(** X9.  An escaped string is made of letters, digits, [-_.~], [+] and
    [%] only: whatever the input, [QueryEscape] never lets a character
    through that could end a parameter or start another ([&], [=], [#],
    [?], [/], a space, a quote). *)
Theorem QueryEscape_alphabet (s : string) (x : ascii) :
  Modrinth.escaped_char x = false ->
  Modrinth.count_char x (Modrinth.QueryEscape s) = 0%nat.
Proof.
  intros Hx. induction s as [|c s IH]; [reflexivity|].
  cbn [Modrinth.QueryEscape]. rewrite count_char_app, IH.
  destruct (Nat.eq_dec (Modrinth.count_char x (Modrinth.escape_byte c)) 0) as [E|E].
  - rewrite E. reflexivity.
  - apply escape_byte_chars in E. congruence.
Qed.

Lemma QueryEscape_alphabet_witness :
  Modrinth.escaped_char "&" = false
  /\ Modrinth.count_char "&" (Modrinth.QueryEscape "fabric&limit=100 #x") = 0%nat.
Proof.
  split; [reflexivity|].
  exact (QueryEscape_alphabet "fabric&limit=100 #x" "&" eq_refl).
Defined.

(** ** The search path *)

Lemma append_assoc (a b c : string) : (a ++ b) ++ c = a ++ b ++ c.
Proof. induction a as [|x a IH]; [reflexivity|]. cbn [String.append]. rewrite IH. reflexivity. Qed.

Lemma append_empty_r (a : string) : a ++ EmptyString = a.
Proof. induction a as [|x a IH]; [reflexivity|]. cbn [String.append]. rewrite IH. reflexivity. Qed.

Lemma append_not_empty (a b : string) : b <> EmptyString -> a ++ b <> EmptyString.
Proof. destruct a; [intros H; exact H | discriminate]. Qed.

Lemma pair_text_not_empty (kv : string * string) : Modrinth.pair_text kv <> EmptyString.
Proof. unfold Modrinth.pair_text. apply append_not_empty. discriminate. Qed.

Lemma buffer_head (buf : string) :
  (if (buf =? EmptyString)%string then buf else buf ++ "&")
  = (if (buf =? EmptyString)%string then EmptyString else buf ++ "&").
Proof. destruct (String.eqb_spec buf EmptyString) as [E|E]; [exact E | reflexivity]. Qed.

(** Encoding keys that each carry one value: the pairs joined by [&],
    after what the buffer already holds. *)
Lemma encode_singletons (l : list (string * string)) (buf : string) :
  fold_left (fun buf kv => fold_left (Modrinth.encode_pair (fst kv)) (snd kv) buf)
            (map (fun kv => (fst kv, [snd kv])) l) buf
  = match l with
    | [] => buf
    | _ :: _ =>
        (if (buf =? EmptyString)%string then EmptyString else buf ++ "&")
        ++ String.concat "&" (map Modrinth.pair_text l)
    end.
Proof.
  revert buf. induction l as [|kv rest IH]; intros buf; [reflexivity|].
  cbn [map fold_left fst snd]. rewrite IH.
  assert (Henc : Modrinth.encode_pair (fst kv) buf (snd kv)
                 = (if (buf =? EmptyString)%string then EmptyString else buf ++ "&")
                   ++ Modrinth.pair_text kv).
  { unfold Modrinth.encode_pair. rewrite buffer_head. reflexivity. }
  rewrite Henc.
  set (head := (if (buf =? EmptyString)%string then EmptyString else buf ++ "&")).
  destruct rest as [|kv' rest'].
  - reflexivity.
  - destruct (String.eqb_spec (head ++ Modrinth.pair_text kv) EmptyString) as [E|_].
    { exfalso. exact (append_not_empty _ _ (pair_text_not_empty kv) E). }
    change (String.concat "&" (map Modrinth.pair_text (kv :: kv' :: rest')))
      with (Modrinth.pair_text kv ++ "&"
            ++ String.concat "&" (map Modrinth.pair_text (kv' :: rest'))).
    rewrite !append_assoc. reflexivity.
Qed.

Lemma SearchProjects_path_escaped (o : Modrinth.SearchProjectOptions) :
  Modrinth.SearchProjects_path o
  = "/v2/search?"
    ++ (if (Modrinth.Facets o =? EmptyString)%string then EmptyString
        else "facets=" ++ Modrinth.QueryEscape (Modrinth.Facets o) ++ "&")
    ++ "filter=" ++ Modrinth.QueryEscape (Modrinth.Filter o)
    ++ "&index=" ++ Modrinth.QueryEscape (Modrinth.search_index o)
    ++ "&limit=" ++ Modrinth.QueryEscape (Modrinth.Sprint_int (Modrinth.Limit o))
    ++ "&offset=" ++ Modrinth.QueryEscape (Modrinth.Sprint_int (Modrinth.Offset o))
    ++ "&query=" ++ Modrinth.QueryEscape (Modrinth.Query o)
  /\ (Modrinth.Index o <> EmptyString -> Modrinth.search_index o = Modrinth.Index o)
  /\ (Modrinth.Index o = EmptyString -> Modrinth.Query o <> EmptyString ->
      Modrinth.search_index o = "relevance")
  /\ (Modrinth.Index o = EmptyString -> Modrinth.Query o = EmptyString ->
      Modrinth.search_index o = "downloads").
Proof.
  split.
  - unfold Modrinth.SearchProjects_path, Modrinth.Values_Encode.
    destruct (Modrinth.Facets o =? EmptyString)%string; cbn [negb].
    + change (Modrinth.sort_by_key _)
        with (map (fun kv : string * string => (fst kv, [snd kv]))
                  [("filter", Modrinth.Filter o);
                   ("index", Modrinth.search_index o);
                   ("limit", Modrinth.Sprint_int (Modrinth.Limit o));
                   ("offset", Modrinth.Sprint_int (Modrinth.Offset o));
                   ("query", Modrinth.Query o)]).
      rewrite encode_singletons. reflexivity.
    + change (Modrinth.sort_by_key _)
        with (map (fun kv : string * string => (fst kv, [snd kv]))
                  [("facets", Modrinth.Facets o);
                   ("filter", Modrinth.Filter o);
                   ("index", Modrinth.search_index o);
                   ("limit", Modrinth.Sprint_int (Modrinth.Limit o));
                   ("offset", Modrinth.Sprint_int (Modrinth.Offset o));
                   ("query", Modrinth.Query o)]).
      rewrite encode_singletons, !append_assoc. reflexivity.
  - unfold Modrinth.search_index. repeat split.
    + intros H. apply String.eqb_neq in H. rewrite H. reflexivity.
    + intros -> H. apply String.eqb_neq in H. rewrite H. reflexivity.
    + intros -> ->. reflexivity.
Qed.


Lemma QueryEscape_digits (d : Decimal.uint) :
  Modrinth.QueryEscape (NilEmpty.string_of_uint d) = NilEmpty.string_of_uint d.
Proof. induction d; cbn; try rewrite IHd; reflexivity. Qed.

(** Printed integers are made of digits and a minus sign, which
    escaping leaves alone. *)
Lemma QueryEscape_Sprint_int (n : Z) :
  Modrinth.QueryEscape (Modrinth.Sprint_int n) = Modrinth.Sprint_int n.
Proof.
  unfold Modrinth.Sprint_int, NilZero.string_of_int, NilZero.string_of_uint.
  destruct (Z.to_int n) as [d|d].
  - destruct d; try reflexivity; apply (QueryEscape_digits (_ d)).
  - change (Modrinth.QueryEscape (String "-" ?s)) with (String "-" (Modrinth.QueryEscape s)).
    destruct d; try reflexivity;
      cbn [Modrinth.QueryEscape Modrinth.escape_byte]; f_equal;
      apply (QueryEscape_digits (_ d)).
Qed.

(** X10.  The path of a search lists its parameters in ascending order
    of their names, whatever the order they were added in: [facets] (only
    when given), [filter], [index], [limit], [offset], [query], the
    strings escaped and the numbers in decimal.  An empty index is sent as
    "relevance" when there is a query and as "downloads" when there is
    none. *)
Theorem SearchProjects_path_shape (o : Modrinth.SearchProjectOptions) :
  Modrinth.SearchProjects_path o
  = "/v2/search?"
    ++ (if (Modrinth.Facets o =? EmptyString)%string then EmptyString
        else "facets=" ++ Modrinth.QueryEscape (Modrinth.Facets o) ++ "&")
    ++ "filter=" ++ Modrinth.QueryEscape (Modrinth.Filter o)
    ++ "&index=" ++ Modrinth.QueryEscape (Modrinth.search_index o)
    ++ "&limit=" ++ Modrinth.Sprint_int (Modrinth.Limit o)
    ++ "&offset=" ++ Modrinth.Sprint_int (Modrinth.Offset o)
    ++ "&query=" ++ Modrinth.QueryEscape (Modrinth.Query o)
  /\ (Modrinth.Index o <> EmptyString -> Modrinth.search_index o = Modrinth.Index o)
  /\ (Modrinth.Index o = EmptyString -> Modrinth.Query o <> EmptyString ->
      Modrinth.search_index o = "relevance")
  /\ (Modrinth.Index o = EmptyString -> Modrinth.Query o = EmptyString ->
      Modrinth.search_index o = "downloads").
Proof.
  destruct (SearchProjects_path_escaped o) as (Hpath & Hrest).
  split; [|exact Hrest].
  rewrite Hpath, !QueryEscape_Sprint_int. reflexivity.
Qed.

(** X11.  No option value can add a parameter to a search or cut one
    short: the path has exactly one [?], one [=] and one [&] per
    parameter sent (five parameters, six with facets) and no [#],
    whatever the strings in the options contain. *)
Theorem search_path_separators (o : Modrinth.SearchProjectOptions) :
  Modrinth.count_char "?" (Modrinth.SearchProjects_path o) = 1%nat
  /\ Modrinth.count_char "#" (Modrinth.SearchProjects_path o) = 0%nat
  /\ Modrinth.count_char "=" (Modrinth.SearchProjects_path o)
     = (if (Modrinth.Facets o =? EmptyString)%string then 5 else 6)%nat
  /\ Modrinth.count_char "&" (Modrinth.SearchProjects_path o)
     = (if (Modrinth.Facets o =? EmptyString)%string then 4 else 5)%nat.
Proof.
  rewrite (proj1 (SearchProjects_path_escaped o)).
  destruct (Modrinth.Facets o =? EmptyString)%string;
    repeat split;
    rewrite !count_char_app, !QueryEscape_alphabet by reflexivity;
    reflexivity.
Qed.

(** ** Project identifiers *)

(** A character that escaping never produces does not occur in an escaped
    text. *)
Lemma QueryEscape_chars (s : string) (x : ascii) :
  Modrinth.escaped_char x = false ->
  Modrinth.count_char x (Modrinth.QueryEscape s) = 0%nat.
Proof.
  intros Hx. induction s as [|c s IH]; [reflexivity|].
  cbn [Modrinth.QueryEscape]. rewrite count_char_app, IH.
  destruct (Nat.eq_dec (Modrinth.count_char x (Modrinth.escape_byte c)) 0) as [E|E].
  - rewrite E. reflexivity.
  - apply escape_byte_chars in E. congruence.
Qed.


Lemma strip_prefix_app (p s : string) : Modrinth.strip_prefix p (p ++ s) = Some s.
Proof.
  induction p as [|c p IH]; [reflexivity|].
  cbn [String.append Modrinth.strip_prefix]. rewrite Ascii.eqb_refl. exact IH.
Qed.

Lemma strip_prefix_some (p s rest : string) :
  Modrinth.strip_prefix p s = Some rest -> s = p ++ rest.
Proof.
  revert s. induction p as [|c p IH]; intros s.
  - cbn. intros H. inversion H. reflexivity.
  - destruct s as [|x s]; [discriminate|].
    cbn [Modrinth.strip_prefix]. destruct (Ascii.eqb_spec c x) as [->|]; [|discriminate].
    intros H. cbn [String.append]. rewrite (IH s H). reflexivity.
Qed.

Section ModrinthFacts.

Variable Context : Type.
Variable Net : Type.
Variable json_Marshal : json -> error + string.
Variable CanonicalHeaderKey : string -> string.
Variable NewRequestWithContext : string -> string -> error + (string * string).
Variable range_order : Net -> list (string * string) -> list (string * string).

Local Abbreviation Client := (Modrinth.ModrinthV2Client Context Net).
Local Abbreviation fetch :=
  (@Modrinth.fetch Context Net json_Marshal CanonicalHeaderKey NewRequestWithContext range_order).
Local Abbreviation doJSON :=
  (@Modrinth.doJSON Context Net json_Marshal CanonicalHeaderKey NewRequestWithContext range_order).
Local Abbreviation send :=
  (@Modrinth.request Context Net CanonicalHeaderKey NewRequestWithContext range_order).
Local Abbreviation GetProject :=
  (@Modrinth.GetProject Context Net json_Marshal CanonicalHeaderKey NewRequestWithContext range_order).
Local Abbreviation GetProjectVersions :=
  (@Modrinth.GetProjectVersions Context Net json_Marshal CanonicalHeaderKey NewRequestWithContext range_order).

(** X12.  GetProject removes one leading "local-" from the identifier
    and no more: the path for "local-" followed by an identifier is the
    path for that identifier as it stands, so asking for "local-X" is the
    same call as asking for "X" whenever X does not itself begin with
    "local-". *)
Theorem GetProject_strips_one_prefix
    {Project : Type} (R : Modrinth.Result Project) (c : Client) (ctx : Context)
    (id : string) (net : Net) :
  Modrinth.GetProject_path ("local-" ++ id) = "/v2/project/" ++ id
  /\ ((forall rest, id <> "local-" ++ rest) ->
      GetProject R c ctx ("local-" ++ id) net = GetProject R c ctx id net).
Proof.
  assert (Hpath : Modrinth.GetProject_path ("local-" ++ id) = "/v2/project/" ++ id).
  { unfold Modrinth.GetProject_path, Modrinth.TrimPrefix.
    rewrite strip_prefix_app. reflexivity. }
  split; [exact Hpath|].
  intros Hno. unfold Modrinth.GetProject. rewrite Hpath.
  unfold Modrinth.GetProject_path, Modrinth.TrimPrefix.
  destruct (Modrinth.strip_prefix "local-" id) as [rest|] eqn:E; [|reflexivity].
  apply strip_prefix_some in E. exfalso. exact (Hno rest E).
Qed.

(** ** Version filters *)

Lemma Sprint_bool_plain (b : bool) :
  Modrinth.QueryEscape (Modrinth.Sprint_bool b) = Modrinth.Sprint_bool b.
Proof. destruct b; reflexivity. Qed.

(** X13.  When all three filters of GetProjectVersions are given, the
    query lists them as [featured], [game_versions], [loaders], in
    ascending order of their names and not in the order the code adds
    them, with the marshalled lists escaped. *)
Theorem GetProjectVersions_query_order
    {Versions : Type} (R : Modrinth.Result Versions) (c : Client) (ctx : Context)
    (id : string) (o : Modrinth.GetProjectVersionsOptions) (net : Net)
    (featured : bool) (loaders gameVersions : string) :
  Modrinth.Loaders o <> [] ->
  Modrinth.GameVersions o <> [] ->
  Modrinth.Featured o = Some featured ->
  json_Marshal (JArr (map JStr (Modrinth.Loaders o))) = inr loaders ->
  json_Marshal (JArr (map JStr (Modrinth.GameVersions o))) = inr gameVersions ->
  GetProjectVersions R c ctx id o net
  = fetch R c ctx "GET"
      ("/v2/project/" ++ id ++ "/version?featured=" ++ Modrinth.Sprint_bool featured
       ++ "&game_versions=" ++ Modrinth.QueryEscape gameVersions
       ++ "&loaders=" ++ Modrinth.QueryEscape loaders) None net.
Proof.
  intros Hl Hg Hf Hml Hmg.
  unfold Modrinth.GetProjectVersions, Modrinth.GetProjectVersions_query.
  destruct (Modrinth.Loaders o) as [|l ls] eqn:El; [contradiction|].
  destruct (Modrinth.GameVersions o) as [|g gs] eqn:Eg; [contradiction|].
  rewrite Hml, Hmg, Hf.
  unfold Modrinth.Values_Encode.
  change (Modrinth.sort_by_key _)
    with (map (fun kv : string * string => (fst kv, [snd kv]))
              [("featured", Modrinth.Sprint_bool featured);
               ("game_versions", gameVersions);
               ("loaders", loaders)]).
  rewrite encode_singletons.
  cbn [String.eqb map String.concat]. unfold Modrinth.pair_text. cbn [fst snd].
  rewrite Sprint_bool_plain. reflexivity.
Qed.

(** X20.  However many identifiers there are and whatever they
    contain, GetProjects and GetProjectVersionsByID send them in the one
    parameter [ids], as the escaped JSON text of the list: the path has
    exactly one [?] and one [=], and no [&], [#], quote, bracket, comma or
    space. *)
Theorem ids_parameter (ids : option (list string)) (x : ascii) :
  Modrinth.GetProjects_path json_Marshal ids
  = "/v2/projects?ids=" ++ Modrinth.QueryEscape (Modrinth.marshal_ids json_Marshal ids)
  /\ Modrinth.GetProjectVersionsByID_path json_Marshal ids
     = "/v2/versions?ids=" ++ Modrinth.QueryEscape (Modrinth.marshal_ids json_Marshal ids)
  /\ Modrinth.count_char "?" (Modrinth.GetProjects_path json_Marshal ids) = 1%nat
  /\ Modrinth.count_char "=" (Modrinth.GetProjects_path json_Marshal ids) = 1%nat
  /\ Modrinth.count_char "?" (Modrinth.GetProjectVersionsByID_path json_Marshal ids) = 1%nat
  /\ Modrinth.count_char "=" (Modrinth.GetProjectVersionsByID_path json_Marshal ids) = 1%nat
  /\ (In x ["&"; "#"; "034"; "["; "]"; ","; " "]%char ->
      Modrinth.count_char x (Modrinth.GetProjects_path json_Marshal ids) = 0%nat
      /\ Modrinth.count_char x (Modrinth.GetProjectVersionsByID_path json_Marshal ids)
         = 0%nat).
Proof.
  assert (H1 : Modrinth.GetProjects_path json_Marshal ids
               = "/v2/projects?ids="
                 ++ Modrinth.QueryEscape (Modrinth.marshal_ids json_Marshal ids))
    by reflexivity.
  assert (H2 : Modrinth.GetProjectVersionsByID_path json_Marshal ids
               = "/v2/versions?ids="
                 ++ Modrinth.QueryEscape (Modrinth.marshal_ids json_Marshal ids))
    by reflexivity.
  split; [exact H1|]. split; [exact H2|].
  rewrite H1, H2, !count_char_app.
  rewrite (QueryEscape_chars _ "?" eq_refl), (QueryEscape_chars _ "=" eq_refl).
  split; [reflexivity|]. split; [reflexivity|]. split; [reflexivity|]. split; [reflexivity|].
  intros Hx. cbn [In] in Hx.
  assert (Hesc : Modrinth.escaped_char x = false /\ Modrinth.count_char x "/v2/projects?ids=" = 0%nat
                 /\ Modrinth.count_char x "/v2/versions?ids=" = 0%nat).
  { destruct Hx as [<-|[<-|[<-|[<-|[<-|[<-|[<-|[]]]]]]]]; repeat split; reflexivity. }
  destruct Hesc as (Hesc & C1 & C2).
  rewrite (QueryEscape_chars _ x Hesc), C1, C2. split; reflexivity.
Qed.

(** ** Answers *)

Lemma failed_spec (resp : Modrinth.HttpResponse) :
  Modrinth.failed resp = true
  <-> (Modrinth.StatusCode resp < 200 \/ 300 <= Modrinth.StatusCode resp).
Proof.
  unfold Modrinth.failed. rewrite Bool.orb_true_iff, Z.ltb_lt, Z.geb_le. reflexivity.
Qed.

Lemma not_failed_spec (resp : Modrinth.HttpResponse) :
  Modrinth.failed resp = false <-> 200 <= Modrinth.StatusCode resp < 300.
Proof.
  pose proof (failed_spec resp) as H.
  destruct (Modrinth.failed resp); split; intros H'; try reflexivity; try discriminate; lia.
Qed.

(** X15.  What a typed call can come back with.  An API error is
    returned only for an answer whose status is below 200 or at least
    300, it carries that answer's URL, status and body, and the value
    beside it is the zero value; [nil] is returned only for an answer with
    a status from 200 to 299 whose body was decoded without error, and
    the value is the decoded one; the call never makes up an error text of
    its own. *)
Theorem fetch_outcomes
    {T : Type} (R : Modrinth.Result T) (c : Client) (ctx : Context)
    (method path : string) (body : option json) (net : Net) :
  match snd (fst (fetch R c ctx method path body net)) with
  | Some (Modrinth.ModrinthAPIError url status text) =>
      fst (fst (fetch R c ctx method path body net)) = Modrinth.zero R
      /\ (status < 200 \/ 300 <= status)
      /\ exists r ct resp net',
           send c ctx method path r ct net = (inr resp, net')
           /\ Modrinth.FinalURL resp = url /\ Modrinth.StatusCode resp = status
           /\ Modrinth.ResponseBody resp = text
  | Some (Modrinth.ErrorString _) => False
  | Some (Modrinth.Underlying _) => True
  | None =>
      exists r ct resp net',
        send c ctx method path r ct net = (inr resp, net')
        /\ 200 <= Modrinth.StatusCode resp < 300
        /\ Modrinth.Decode R (Modrinth.ResponseBody resp)
           = (fst (fst (fetch R c ctx method path body net)), None)
  end.
Proof.
  unfold Modrinth.fetch, Modrinth.doJSON.
  destruct (match body with
            | Some doc =>
                match json_Marshal doc with
                | inl err => inl err
                | inr b => inr (Some b, "application/json")
                end
            | None => inr (None, EmptyString)
            end) as [err|[r ct]]; [exact I|].
  destruct (send c ctx method path r ct net) as [[err|resp] net'] eqn:Hsend; [exact I|].
  destruct (Modrinth.failed resp) eqn:Hf.
  - cbn [fst snd Modrinth.api_failure]. split; [reflexivity|].
    split; [apply failed_spec; exact Hf|].
    exists r, ct, resp, net'. repeat split. exact Hsend.
  - cbn [fst snd].
    destruct (Modrinth.Decode R (Modrinth.ResponseBody resp)) as [v [e|]] eqn:Hd;
      cbn [fst snd option_map]; [exact I|].
    exists r, ct, resp, net'.
    split; [exact Hsend|]. split; [apply not_failed_spec; exact Hf | exact Hd].
Qed.

(** X16.  FollowProject and UnfollowProject return [nil] exactly when
    the request was answered with a status from 200 to 299, whatever the
    body then holds (it is not decoded), so an empty 204 is a success; on
    any other status the body is read into the ModrinthAPIError that is
    returned, with the status and the URL of the answer.  Both go to the
    same path without a body and differ in the method only. *)
Theorem follow_succeeds_on_2xx (c : Client) (ctx : Context) (id : string) (net : Net) :
  (snd (fst (@Modrinth.FollowProject Context Net json_Marshal CanonicalHeaderKey NewRequestWithContext range_order
               c ctx id net)) = None
   <-> exists resp net',
         send c ctx "POST" ("/v2/project/" ++ id ++ "/follow") None EmptyString net
         = (inr resp, net')
         /\ 200 <= Modrinth.StatusCode resp < 300)
  /\ (snd (fst (@Modrinth.UnfollowProject Context Net json_Marshal CanonicalHeaderKey NewRequestWithContext range_order
                  c ctx id net)) = None
      <-> exists resp net',
            send c ctx "DELETE" ("/v2/project/" ++ id ++ "/follow") None EmptyString net
            = (inr resp, net')
            /\ 200 <= Modrinth.StatusCode resp < 300)
  /\ (forall resp net',
        send c ctx "POST" ("/v2/project/" ++ id ++ "/follow") None EmptyString net
        = (inr resp, net') ->
        @Modrinth.FollowProject Context Net json_Marshal CanonicalHeaderKey NewRequestWithContext range_order
          c ctx id net
        = ((tt, if (200 <=? Modrinth.StatusCode resp) && (Modrinth.StatusCode resp <? 300)
                then None
                else Some (Modrinth.ModrinthAPIError (Modrinth.FinalURL resp)
                             (Modrinth.StatusCode resp) (Modrinth.ResponseBody resp))),
           net'))
  /\ (forall resp net',
        send c ctx "DELETE" ("/v2/project/" ++ id ++ "/follow") None EmptyString net
        = (inr resp, net') ->
        @Modrinth.UnfollowProject Context Net json_Marshal CanonicalHeaderKey NewRequestWithContext range_order
          c ctx id net
        = ((tt, if (200 <=? Modrinth.StatusCode resp) && (Modrinth.StatusCode resp <? 300)
                then None
                else Some (Modrinth.ModrinthAPIError (Modrinth.FinalURL resp)
                             (Modrinth.StatusCode resp) (Modrinth.ResponseBody resp))),
           net')).
Proof.
  assert (Hfailed : forall resp : Modrinth.HttpResponse,
             Modrinth.failed resp
             = negb ((200 <=? Modrinth.StatusCode resp) && (Modrinth.StatusCode resp <? 300))).
  { intros resp. unfold Modrinth.failed.
    destruct (Z.ltb_spec (Modrinth.StatusCode resp) 200);
      destruct (Z.leb_spec 200 (Modrinth.StatusCode resp));
      destruct (Z.ltb_spec (Modrinth.StatusCode resp) 300);
      destruct (Z.geb_spec (Modrinth.StatusCode resp) 300); try reflexivity; lia. }
  unfold Modrinth.FollowProject, Modrinth.UnfollowProject, Modrinth.doJSON.
  split; [|split; [|split]].
  - destruct (send c ctx "POST" _ None EmptyString net) as [[err|resp] net'].
    + cbn [fst snd]. split; [discriminate | intros (r & n & H & _); discriminate].
    + destruct (Modrinth.failed resp) eqn:Hf; cbn [fst snd].
      * split; [discriminate|]. intros (r & n & H & Hs). inversion H. subst r.
        apply not_failed_spec in Hs. congruence.
      * split; [|reflexivity]. intros _. exists resp, net'.
        split; [reflexivity | apply not_failed_spec; exact Hf].
  - destruct (send c ctx "DELETE" _ None EmptyString net) as [[err|resp] net'].
    + cbn [fst snd]. split; [discriminate | intros (r & n & H & _); discriminate].
    + destruct (Modrinth.failed resp) eqn:Hf; cbn [fst snd].
      * split; [discriminate|]. intros (r & n & H & Hs). inversion H. subst r.
        apply not_failed_spec in Hs. congruence.
      * split; [|reflexivity]. intros _. exists resp, net'.
        split; [reflexivity | apply not_failed_spec; exact Hf].
  - intros resp net' Hs. rewrite Hs, Hfailed.
    destruct ((200 <=? Modrinth.StatusCode resp) && (Modrinth.StatusCode resp <? 300));
      reflexivity.
  - intros resp net' Hs. rewrite Hs, Hfailed.
    destruct ((200 <=? Modrinth.StatusCode resp) && (Modrinth.StatusCode resp <? 300));
      reflexivity.
Qed.

(** ** The icon of a collection *)

Lemma Split_length (s : string) (sep : ascii) :
  List.length (Modrinth.Split s sep) = S (Modrinth.count_char sep s).
Proof.
  induction s as [|c s IH]; [reflexivity|].
  cbn [Modrinth.Split Modrinth.count_char].
  destruct (c =? sep)%char.
  - cbn [List.length]. rewrite IH. reflexivity.
  - destruct (Modrinth.Split s sep) as [|piece pieces]; [discriminate|].
    cbn [List.length] in *. lia.
Qed.

Lemma Split_whole (s : string) (sep : ascii) :
  Modrinth.count_char sep s = 0%nat -> Modrinth.Split s sep = [s].
Proof.
  induction s as [|c s IH]; [reflexivity|].
  cbn [Modrinth.Split Modrinth.count_char].
  destruct (c =? sep)%char; [discriminate|].
  intros H. rewrite (IH H). reflexivity.
Qed.

Lemma Split_first (kind rest : string) (sep : ascii) :
  Modrinth.count_char sep kind = 0%nat ->
  Modrinth.Split (kind ++ String sep rest) sep = kind :: Modrinth.Split rest sep.
Proof.
  induction kind as [|c kind IH].
  - intros _. cbn [String.append Modrinth.Split]. rewrite Ascii.eqb_refl. reflexivity.
  - cbn [String.append Modrinth.Split Modrinth.count_char].
    destruct (c =? sep)%char; [discriminate|].
    intros H. rewrite (IH H). reflexivity.
Qed.

(** X17.  UpdateCollectionIcon answers "invalid mime type" exactly when
    the mime type holds no slash, and then nothing is sent.  For a mime
    type of the form kind/ext the request is a PATCH to the collection's
    icon path with [ext] as the extension, as written and not escaped, and
    the mime type as content type. *)
Theorem UpdateCollectionIcon_mime
    (c : Client) (ctx : Context) (id data mime : string) (net : Net) :
  (Modrinth.count_char "/" mime = 0%nat ->
   @Modrinth.UpdateCollectionIcon Context Net CanonicalHeaderKey NewRequestWithContext range_order c ctx id data mime net
   = (Some (Modrinth.ErrorString "invalid mime type"), net))
  /\ (Modrinth.count_char "/" mime <> 0%nat ->
      forall text,
        fst (@Modrinth.UpdateCollectionIcon Context Net CanonicalHeaderKey NewRequestWithContext range_order
               c ctx id data mime net) <> Some (Modrinth.ErrorString text))
  /\ (forall kind ext,
        mime = kind ++ "/" ++ ext ->
        Modrinth.count_char "/" kind = 0%nat ->
        Modrinth.count_char "/" ext = 0%nat ->
        @Modrinth.UpdateCollectionIcon Context Net CanonicalHeaderKey NewRequestWithContext range_order
          c ctx id data mime net
        = match send c ctx "PATCH" ("/v3/collection/" ++ id ++ "/icon?ext=" ++ ext)
                     (Some data) mime net with
          | (inl err, net') => (Some (Modrinth.Underlying err), net')
          | (inr resp, net') =>
              if Modrinth.failed resp then (Some (Modrinth.api_failure resp), net')
              else (None, net')
          end).
Proof.
  unfold Modrinth.UpdateCollectionIcon.
  split; [|split].
  - intros H. rewrite Split_length, H. reflexivity.
  - intros H text. rewrite Split_length.
    destruct (Modrinth.count_char "/" mime) as [|n]; [contradiction|].
    cbn [Nat.ltb Nat.leb].
    destruct (send c ctx "PATCH" _ (Some data) mime net) as [[err|resp] net'];
      [cbn; discriminate|].
    destruct (Modrinth.failed resp); cbn; discriminate.
  - intros kind ext -> Hk He.
    change (kind ++ "/" ++ ext) with (kind ++ String "/" ext).
    rewrite (Split_first kind ext "/" Hk), (Split_whole ext "/" He).
    reflexivity.
Qed.

(** ** Configuring the client *)

Lemma map_get_set {A : Type} (m : list (string * A)) (k k' : string) (v : A) :
  Modrinth.map_get (Modrinth.map_set m k v) k'
  = if (k =? k')%string then Some v else Modrinth.map_get m k'.
Proof.
  induction m as [|[k0 v0] m IH].
  - cbn [Modrinth.map_set Modrinth.map_get]. reflexivity.
  - cbn [Modrinth.map_set].
    destruct (String.eqb_spec k0 k) as [->|Hne].
    + cbn [Modrinth.map_get]. destruct (k =? k')%string; reflexivity.
    + cbn [Modrinth.map_get]. destruct (String.eqb_spec k0 k') as [->|Hne'].
      * destruct (String.eqb_spec k k') as [->|]; [contradiction | reflexivity].
      * exact IH.
Qed.

Lemma map_get_absent {A : Type} (m : list (string * A)) (k : string) :
  ~ In k (map fst m) -> Modrinth.map_get m k = None.
Proof.
  induction m as [|[k0 v0] m IH]; [reflexivity|].
  cbn [map fst In Modrinth.map_get]. intros H.
  destruct (String.eqb_spec k0 k) as [->|_]; [exfalso; apply H; left; reflexivity|].
  apply IH. intros Hin. apply H. right. exact Hin.
Qed.

Lemma merge_lookup (extra m : list (string * string)) (k : string) :
  NoDup (map fst extra) ->
  Modrinth.map_get (fold_left (fun m kv => Modrinth.map_set m (fst kv) (snd kv)) extra m) k
  = match Modrinth.map_get extra k with
    | Some v => Some v
    | None => Modrinth.map_get m k
    end.
Proof.
  revert m. induction extra as [|[k0 v0] extra IH]; intros m Hnd; [reflexivity|].
  cbn [map fst] in Hnd. inversion Hnd as [|? ? Hnotin Hnd']. subst.
  cbn [fold_left fst snd Modrinth.map_get]. rewrite (IH _ Hnd'), map_get_set.
  destruct (String.eqb_spec k0 k) as [->|Hne].
  - rewrite (map_get_absent extra k Hnotin). reflexivity.
  - reflexivity.
Qed.

Variable DefaultClient : Modrinth.HTTPClient Context Net.

(** X18.  Options are applied from left to right and WithHeaders merges:
    after a final WithHeaders every header it names has the value it
    gives, every other header is as the earlier options left it, and the
    base URL and the HTTP client are untouched. *)
Theorem WithHeaders_merges
    (options : list (Modrinth.ModrinthClientOption Context Net))
    (extra : list (string * string)) (k : string) :
  NoDup (map fst extra) ->
  Modrinth.map_get
    (Modrinth.headers
       (@Modrinth.NewModrinthV2Client Context Net DefaultClient (options ++ [@Modrinth.WithHeaders Context Net extra])))
    k
  = match Modrinth.map_get extra k with
    | Some v => Some v
    | None => Modrinth.map_get (Modrinth.headers (@Modrinth.NewModrinthV2Client Context Net DefaultClient options)) k
    end
  /\ Modrinth.baseURL
       (@Modrinth.NewModrinthV2Client Context Net DefaultClient (options ++ [@Modrinth.WithHeaders Context Net extra]))
     = Modrinth.baseURL (@Modrinth.NewModrinthV2Client Context Net DefaultClient options)
  /\ Modrinth.httpClient
       (@Modrinth.NewModrinthV2Client Context Net DefaultClient (options ++ [@Modrinth.WithHeaders Context Net extra]))
     = Modrinth.httpClient (@Modrinth.NewModrinthV2Client Context Net DefaultClient options).
Proof.
  intros Hnd. unfold Modrinth.NewModrinthV2Client. rewrite fold_left_app.
  cbn [fold_left Modrinth.WithHeaders Modrinth.headers Modrinth.baseURL Modrinth.httpClient].
  split; [apply merge_lookup; exact Hnd | split; reflexivity].
Qed.

(** ** The request that is sent *)

Lemma set_headers_keep (hs : list (string * string)) (req : Modrinth.Request Context) :
  let req' := fold_left (fun r kv => @Modrinth.set_header Context CanonicalHeaderKey r (fst kv) (snd kv))
                        hs req in
  Modrinth.Ctx req' = Modrinth.Ctx req /\ Modrinth.Method req' = Modrinth.Method req
  /\ Modrinth.RequestURL req' = Modrinth.RequestURL req
  /\ Modrinth.RequestBody req' = Modrinth.RequestBody req.
Proof.
  revert req. induction hs as [|kv hs IH]; intros req; [repeat split|].
  cbn [fold_left]. destruct (IH (@Modrinth.set_header Context CanonicalHeaderKey req (fst kv) (snd kv)))
    as (H1 & H2 & H3 & H4).
  cbv zeta. repeat split; assumption.
Qed.

(** Headers whose canonical names differ do not disturb each other. *)
Lemma set_headers_other (hs : list (string * string)) (req : Modrinth.Request Context)
    (key : string) :
  ~ In key (map (fun kv => CanonicalHeaderKey (fst kv)) hs) ->
  Modrinth.map_get
    (Modrinth.Header
       (fold_left (fun r kv => @Modrinth.set_header Context CanonicalHeaderKey r (fst kv) (snd kv))
                  hs req)) key
  = Modrinth.map_get (Modrinth.Header req) key.
Proof.
  revert req. induction hs as [|[k0 v0] hs IH]; intros req Hnot; [reflexivity|].
  cbn [fold_left fst snd]. cbn [map fst In] in Hnot.
  rewrite IH by (intros Hin; apply Hnot; right; exact Hin).
  cbn [Modrinth.set_header Modrinth.Header]. rewrite map_get_set.
  destruct (String.eqb_spec (CanonicalHeaderKey k0) key) as [E|_]; [|reflexivity].
  exfalso. apply Hnot. left. exact E.
Qed.

(** Each of several headers with different canonical names is on the
    request after all of them have been set, in whatever order. *)
Lemma set_headers_lookup (hs : list (string * string)) (req : Modrinth.Request Context)
    (k v : string) :
  NoDup (map (fun kv => CanonicalHeaderKey (fst kv)) hs) ->
  In (k, v) hs ->
  Modrinth.map_get
    (Modrinth.Header
       (fold_left (fun r kv => @Modrinth.set_header Context CanonicalHeaderKey r (fst kv) (snd kv))
                  hs req)) (CanonicalHeaderKey k)
  = Some v.
Proof.
  revert req. induction hs as [|[k0 v0] hs IH]; intros req Hnd Hin; [contradiction|].
  cbn [map fst] in Hnd. inversion Hnd as [|? ? Hnotin Hnd']. subst.
  cbn [fold_left fst snd]. destruct Hin as [E|Hin].
  - inversion E. subst k0 v0.
    rewrite (set_headers_other hs _ _ Hnotin).
    cbn [Modrinth.set_header Modrinth.Header]. rewrite map_get_set, String.eqb_refl.
    reflexivity.
  - apply IH; assumption.
Qed.

(** X19.  The request handed to the HTTP client carries the method and
    the URL that [http.NewRequestWithContext] made of the call's method
    and of the base URL with the path appended, and the body and context
    of the call.  When the call has a content type, that is the request's
    Content-Type whatever headers the client was configured with.  When
    the configured headers have different canonical names, each of them
    is on the request whatever the order the map is visited in, except a
    configured Content-Type that the call's own replaces; a name that was
    not configured is absent. *)
Theorem new_request_content_type
    (c : Client) (ctx : Context) (method path : string) (body : option string)
    (contentType : string) (net : Net) (req : Modrinth.Request Context) :
  @Modrinth.new_request Context Net CanonicalHeaderKey NewRequestWithContext range_order
    c ctx method path body contentType net
  = inr req ->
  NewRequestWithContext method (Modrinth.baseURL c ++ path)
  = inr (Modrinth.Method req, Modrinth.RequestURL req)
  /\ Modrinth.RequestBody req = body
  /\ Modrinth.Ctx req = ctx
  /\ (contentType <> EmptyString ->
      @Modrinth.get_header Context CanonicalHeaderKey req "Content-Type" = Some contentType)
  /\ (Permutation (range_order net (Modrinth.headers c)) (Modrinth.headers c) ->
      NoDup (map (fun kv => CanonicalHeaderKey (fst kv)) (Modrinth.headers c)) ->
      forall k,
        contentType = EmptyString
        \/ CanonicalHeaderKey k <> CanonicalHeaderKey "Content-Type" ->
        (forall v, In (k, v) (Modrinth.headers c) ->
           @Modrinth.get_header Context CanonicalHeaderKey req k = Some v)
        /\ (~ In (CanonicalHeaderKey k)
              (map (fun kv => CanonicalHeaderKey (fst kv)) (Modrinth.headers c)) ->
            @Modrinth.get_header Context CanonicalHeaderKey req k = None)).
Proof.
  unfold Modrinth.new_request.
  destruct (NewRequestWithContext method (Modrinth.baseURL c ++ path))
    as [err|[method' url]]; [discriminate|].
  intros H. inversion H as [Hreq]. clear H.
  set (req0 := {| Modrinth.Ctx := ctx; Modrinth.Method := method';
                  Modrinth.RequestURL := url;
                  Modrinth.Header := []; Modrinth.RequestBody := body |}).
  pose proof (set_headers_keep (range_order net (Modrinth.headers c)) req0) as Hkeep.
  cbv zeta in Hkeep. destruct Hkeep as (H1 & H2 & H3 & H4).
  set (req1 := fold_left
                 (fun r kv => @Modrinth.set_header Context CanonicalHeaderKey r (fst kv) (snd kv))
                 (range_order net (Modrinth.headers c)) req0) in *.
  assert (Hconf : Permutation (range_order net (Modrinth.headers c)) (Modrinth.headers c) ->
                  NoDup (map (fun kv => CanonicalHeaderKey (fst kv)) (Modrinth.headers c)) ->
                  forall k,
                    (forall v, In (k, v) (Modrinth.headers c) ->
                       Modrinth.map_get (Modrinth.Header req1) (CanonicalHeaderKey k) = Some v)
                    /\ (~ In (CanonicalHeaderKey k)
                          (map (fun kv => CanonicalHeaderKey (fst kv)) (Modrinth.headers c)) ->
                        Modrinth.map_get (Modrinth.Header req1) (CanonicalHeaderKey k) = None)).
  { intros Hperm Hnd k. split.
    - intros v Hin. apply set_headers_lookup.
      + apply (Permutation_NoDup
                 (Permutation_sym
                    (Permutation_map (fun kv => CanonicalHeaderKey (fst kv)) Hperm))).
        exact Hnd.
      + apply (Permutation_in _ (Permutation_sym Hperm)). exact Hin.
    - intros Hnot. unfold req1. rewrite set_headers_other; [reflexivity|].
      intros Hin. apply Hnot.
      apply (Permutation_in _ (Permutation_map (fun kv => CanonicalHeaderKey (fst kv)) Hperm)).
      exact Hin. }
  destruct (String.eqb_spec contentType EmptyString) as [->|Hne].
  - cbn [Modrinth.Method Modrinth.RequestURL] in *. rewrite H2, H3.
    split; [reflexivity|]. split; [exact H4|]. split; [exact H1|].
    split; [intros Hc; contradiction|].
    intros Hperm Hnd k _. exact (Hconf Hperm Hnd k).
  - cbn [Modrinth.set_header Modrinth.RequestURL Modrinth.Method Modrinth.RequestBody
         Modrinth.Ctx]. rewrite H2, H3.
    split; [reflexivity|]. split; [exact H4|]. split; [exact H1|].
    split.
    + intros _. unfold Modrinth.get_header. cbn [Modrinth.Header Modrinth.set_header].
      rewrite map_get_set, String.eqb_refl. reflexivity.
    + intros Hperm Hnd k [Hc|Hk]; [contradiction|].
      unfold Modrinth.get_header. cbn [Modrinth.Header Modrinth.set_header].
      rewrite map_get_set.
      destruct (String.eqb_spec (CanonicalHeaderKey "Content-Type") (CanonicalHeaderKey k))
        as [E|_]; [exfalso; apply Hk; symmetry; exact E|].
      exact (Hconf Hperm Hnd k).
Qed.

End ModrinthFacts.

(** ** The further properties at concrete inputs *)

Lemma Login_after_Logout_handshakes_again_witness :
  exists payload,
    Text.Marshal (Handshake_json {| V := "1"; ClientId := "abc123" |}) = inr payload
    /\ outbound (snd (Scenario.Login "abc123"
                        (snd (Logout (Scenario.ready (Scenario.reply 0 Scenario.handshake_ack))))))
       = (outbound (Scenario.ready (Scenario.reply 0 Scenario.handshake_ack))
          ++ Codec.encode 0 (list_byte_of_string payload))%list
    /\ logged (snd (Scenario.Login "abc123"
                      (snd (Logout (Scenario.ready (Scenario.reply 0 Scenario.handshake_ack))))))
       = true.
Proof.
  assert (Hin : Login Text.Marshal Text.Parse Text.Unmarshal_HandshakeResponse "abc123"
                  (snd (Logout (Scenario.ready (Scenario.reply 0 Scenario.handshake_ack))))
                = (Return nil_error,
                   snd (Scenario.Login "abc123"
                          (snd (Logout (Scenario.ready
                                          (Scenario.reply 0 Scenario.handshake_ack)))))))
    by (vm_compute; reflexivity).
  exact (Login_after_Logout_handshakes_again
           Text.Marshal Text.Parse Text.Unmarshal_HandshakeResponse "abc123"
           (Scenario.ready (Scenario.reply 0 Scenario.handshake_ack))
           (snd (Logout (Scenario.ready (Scenario.reply 0 Scenario.handshake_ack))))
           (snd (Scenario.Login "abc123"
                   (snd (Logout (Scenario.ready (Scenario.reply 0 Scenario.handshake_ack))))))
           eq_refl Hin).
Defined.

Lemma nonce_records_random_bytes_witness :
  "01234567-89ab-4def-fedc-ba9876543210" = "01234567-89ab-4def-fedc-ba9876543210"
  <-> (byte_and (nth 6 (rand_buffer (entropy (Scenario.start []))) x00) x0f
       = byte_and
           (nth 6 (rand_buffer
                     (entropy (set_entropy (assign 6 x0d Scenario.dice) (Scenario.start []))))
                x00) x0f
       /\ forall i, i <> 6%nat ->
            nth i (rand_buffer (entropy (Scenario.start []))) x00
            = nth i (rand_buffer
                       (entropy (set_entropy (assign 6 x0d Scenario.dice) (Scenario.start []))))
                  x00).
Proof.
  exact (nonce_records_random_bytes
           (Scenario.start [])
           (set_entropy (assign 6 x0d Scenario.dice) (Scenario.start []))
           "01234567-89ab-4def-fedc-ba9876543210" "01234567-89ab-4def-fedc-ba9876543210"
           eq_refl eq_refl).
Defined.


Lemma ill_typed_member_fails_decoding_witness :
  exists e, decode_Response (JObj [("cmd", JStr "SET_ACTIVITY"); ("EVT", JNum 7)]) = inl e.
Proof.
  apply (ill_typed_member_fails_decoding
           [("cmd", JStr "SET_ACTIVITY"); ("EVT", JNum 7)] "EVT" (JNum 7)).
  - right. left. reflexivity.
  - right. left. reflexivity.
  - intros s. discriminate.
  - discriminate.
Defined.

Lemma last_evt_member_decides_witness :
  Event {| RespCmd := EmptyString; Data := JNull; Event := "ERROR"; RespNonce := EmptyString |}
  = "ERROR".
Proof.
  apply (last_evt_member_decides
           [("evt", JStr "OK")] [("data", JNull)] "Evt" "ERROR"
           {| RespCmd := EmptyString; Data := JNull; Event := "ERROR";
              RespNonce := EmptyString |}).
  - reflexivity.
  - intros kv [<-|[]]. discriminate.
  - reflexivity.
Defined.

Lemma main_writes_two_frames_witness :
  exists hello update,
    Text.Marshal (Handshake_json {| V := "1"; ClientId := "your-client-id" |}) = inr hello
    /\ Text.Marshal
         (request (Scenario.start (Scenario.reply 0 Scenario.handshake_ack
                                   ++ Scenario.reply 1 Scenario.activity_ack))
                  (main_activity (1700000000 mod 2 ^ 64))
                  (nonce_text (nonce_bytes
                     (entropy (Scenario.start (Scenario.reply 0 Scenario.handshake_ack
                                               ++ Scenario.reply 1 Scenario.activity_ack))))))
       = inr update
    /\ outbound (snd (main Text.Marshal Text.Parse Text.Unmarshal_HandshakeResponse 1700000000
                        (Scenario.start (Scenario.reply 0 Scenario.handshake_ack
                                         ++ Scenario.reply 1 Scenario.activity_ack))))
       = (outbound (Scenario.start (Scenario.reply 0 Scenario.handshake_ack
                                    ++ Scenario.reply 1 Scenario.activity_ack))
          ++ Codec.encode 0 (list_byte_of_string hello)
          ++ Codec.encode 1 (list_byte_of_string update))%list.
Proof.
  assert (Hrun : main Text.Marshal Text.Parse Text.Unmarshal_HandshakeResponse 1700000000
                   (Scenario.start (Scenario.reply 0 Scenario.handshake_ack
                                    ++ Scenario.reply 1 Scenario.activity_ack))
                 = (Return "Sleeping...",
                    snd (main Text.Marshal Text.Parse Text.Unmarshal_HandshakeResponse
                           1700000000
                           (Scenario.start (Scenario.reply 0 Scenario.handshake_ack
                                            ++ Scenario.reply 1 Scenario.activity_ack)))))
    by (vm_compute; reflexivity).
  exact (proj2 (proj2 (proj2
    (main_writes_two_frames Text.Marshal Text.Parse Text.Unmarshal_HandshakeResponse
       1700000000
       (Scenario.start (Scenario.reply 0 Scenario.handshake_ack
                        ++ Scenario.reply 1 Scenario.activity_ack))
       (snd (main Text.Marshal Text.Parse Text.Unmarshal_HandshakeResponse 1700000000
               (Scenario.start (Scenario.reply 0 Scenario.handshake_ack
                                ++ Scenario.reply 1 Scenario.activity_ack))))
       "Sleeping..." eq_refl Hrun)))).
Defined.

Lemma GetProjectVersions_query_order_witness :
  Modrinth.GetProjectVersions unit ModrinthDemo.Net Text.Marshal
    ModrinthDemo.CanonicalHeaderKey ModrinthDemo.NewRequestWithContext ModrinthDemo.range_order
    ModrinthDemo.raw ModrinthDemo.client tt "P7dR8mSH" ModrinthDemo.filters []
  = Modrinth.fetch unit ModrinthDemo.Net Text.Marshal
      ModrinthDemo.CanonicalHeaderKey ModrinthDemo.NewRequestWithContext ModrinthDemo.range_order
      ModrinthDemo.raw ModrinthDemo.client tt "GET"
      ("/v2/project/" ++ "P7dR8mSH" ++ "/version?featured=" ++ Modrinth.Sprint_bool true
       ++ "&game_versions="
       ++ Modrinth.QueryEscape (Text.write (JArr (map JStr (Modrinth.GameVersions ModrinthDemo.filters))))
       ++ "&loaders="
       ++ Modrinth.QueryEscape (Text.write (JArr (map JStr (Modrinth.Loaders ModrinthDemo.filters)))))
      None [].
Proof.
  apply (GetProjectVersions_query_order unit ModrinthDemo.Net Text.Marshal
           ModrinthDemo.CanonicalHeaderKey ModrinthDemo.NewRequestWithContext ModrinthDemo.range_order
           ModrinthDemo.raw ModrinthDemo.client tt "P7dR8mSH" ModrinthDemo.filters []
           true).
  - discriminate.
  - discriminate.
  - reflexivity.
  - reflexivity.
  - reflexivity.
Defined.

Lemma WithHeaders_merges_witness :
  Modrinth.map_get
    (Modrinth.headers
       (Modrinth.NewModrinthV2Client unit ModrinthDemo.Net ModrinthDemo.server
          ([Modrinth.WithHeaders unit ModrinthDemo.Net [("a", "1"); ("c", "4")]]
           ++ [Modrinth.WithHeaders unit ModrinthDemo.Net [("a", "2"); ("b", "3")]])))
    "a"
  = match Modrinth.map_get [("a", "2"); ("b", "3")] "a" with
    | Some v => Some v
    | None =>
        Modrinth.map_get
          (Modrinth.headers
             (Modrinth.NewModrinthV2Client unit ModrinthDemo.Net ModrinthDemo.server
                [Modrinth.WithHeaders unit ModrinthDemo.Net [("a", "1"); ("c", "4")]]))
          "a"
    end.
Proof.
  apply (WithHeaders_merges unit ModrinthDemo.Net ModrinthDemo.server
           [Modrinth.WithHeaders unit ModrinthDemo.Net [("a", "1"); ("c", "4")]]
           [("a", "2"); ("b", "3")] "a").
  repeat constructor; simpl; intuition discriminate.
Defined.

Lemma new_request_content_type_witness :
  exists req,
    Modrinth.new_request unit ModrinthDemo.Net ModrinthDemo.CanonicalHeaderKey
      ModrinthDemo.NewRequestWithContext ModrinthDemo.range_order ModrinthDemo.client tt "PATCH"
      "/v3/collection/abc/icon?ext=png" (Some "icon bytes") "image/png" [] = inr req
    /\ ModrinthDemo.NewRequestWithContext "PATCH"
         (Modrinth.baseURL ModrinthDemo.client ++ "/v3/collection/abc/icon?ext=png")
       = inr (Modrinth.Method req, Modrinth.RequestURL req)
    /\ Modrinth.get_header unit ModrinthDemo.CanonicalHeaderKey req "Content-Type"
       = Some "image/png"
    /\ Modrinth.get_header unit ModrinthDemo.CanonicalHeaderKey req "x-api-key" = Some "key"
    /\ Modrinth.get_header unit ModrinthDemo.CanonicalHeaderKey req "Accept" = None.
Proof.
  eexists. split; [reflexivity|].
  destruct (new_request_content_type unit ModrinthDemo.Net ModrinthDemo.CanonicalHeaderKey
              ModrinthDemo.NewRequestWithContext ModrinthDemo.range_order
              ModrinthDemo.client tt "PATCH"
              "/v3/collection/abc/icon?ext=png" (Some "icon bytes") "image/png" [] _ eq_refl)
    as (Hnew & _ & _ & Hct & Hconf).
  split; [exact Hnew|].
  split; [apply Hct; discriminate|].
  assert (Hperm : Permutation
                    (ModrinthDemo.range_order [] (Modrinth.headers ModrinthDemo.client))
                    (Modrinth.headers ModrinthDemo.client))
    by (apply Permutation_sym, Permutation_rev).
  assert (Hnd : NoDup (map (fun kv => ModrinthDemo.CanonicalHeaderKey (fst kv))
                           (Modrinth.headers ModrinthDemo.client)))
    by (repeat constructor; simpl; intuition discriminate).
  split.
  - apply (Hconf Hperm Hnd "x-api-key").
    + right. intros H. discriminate H.
    + right. left. reflexivity.
  - apply (Hconf Hperm Hnd "Accept").
    + right. intros H. discriminate H.
    + simpl. intuition discriminate.
Defined.

(** The demo client, configured with a lower-case content-type header of
    its own, still sends the content type of the call; and a search for
    "fabric api" is sent to the path the theorems describe. *)
Example demo_requests :
  Modrinth.SearchProjects_path
    {| Modrinth.Query := "fabric api"; Modrinth.Filter := EmptyString;
       Modrinth.Index := EmptyString; Modrinth.Offset := 0; Modrinth.Limit := 5;
       Modrinth.Facets := EmptyString |}
  = "/v2/search?filter=&index=relevance&limit=5&offset=0&query=fabric+api"
  /\ snd (Modrinth.GetProject unit ModrinthDemo.Net Text.Marshal
            ModrinthDemo.CanonicalHeaderKey ModrinthDemo.NewRequestWithContext ModrinthDemo.range_order
            ModrinthDemo.raw ModrinthDemo.client tt "local-P7dR8mSH" [])
     = [("GET", "http://localhost:8080/v2/project/P7dR8mSH")]
  /\ Modrinth.UpdateCollectionIcon unit ModrinthDemo.Net
       ModrinthDemo.CanonicalHeaderKey ModrinthDemo.NewRequestWithContext ModrinthDemo.range_order
       ModrinthDemo.client tt "abc" "icon bytes" "png" []
     = (Some (Modrinth.ErrorString "invalid mime type"), []).
Proof. repeat split; vm_compute; reflexivity. Qed.

(** Following a project on a server that answers 404: the body of the
    answer comes back inside the error. *)
Example follow_refused :
  Modrinth.FollowProject unit ModrinthDemo.Net Text.Marshal ModrinthDemo.CanonicalHeaderKey
    ModrinthDemo.NewRequestWithContext ModrinthDemo.range_order
    (Modrinth.WithHTTPClient unit ModrinthDemo.Net ModrinthDemo.refusing ModrinthDemo.client)
    tt "P7dR8mSH" []
  = ((tt, Some (Modrinth.ModrinthAPIError "http://localhost:8080/v2/project/P7dR8mSH/follow"
                  404 "not found")),
     [("POST", "http://localhost:8080/v2/project/P7dR8mSH/follow")]).
Proof. vm_compute. reflexivity. Qed.

(** The text layer on characters and numbers outside the exchanges above:
    what the writer escapes the reader reads back, a number with a
    fraction or an exponent is kept as written, and a leading zero or a
    raw control character is refused. *)
Example text_layer :
  Text.write (JStr "<a&b>")
  = String Text.dquote ("\u003ca\u0026b\u003e" ++ String Text.dquote EmptyString)
  /\ Text.Parse
       (Text.write (JObj [("k<", JArr [JStr (String "226" (String "128" (String "169"
                                               (String "010" (String "001" "&")))));
                                       JNum (-5); JBool true; JNull])]))
     = inr (JObj [("k<", JArr [JStr (String "226" (String "128" (String "169"
                                       (String "010" (String "001" "&")))));
                               JNum (-5); JBool true; JNull])])
  /\ Text.Parse "[0, -12, 1.5, 1e9, 2E-3]"
     = inr (JArr [JNum 0; JNum (-12); JFloat "1.5"; JFloat "1e9"; JFloat "2E-3"])
  /\ Text.Parse "[01]" = inl (JSONError "invalid JSON text")
  /\ Text.Parse (String Text.dquote (String "009" (String Text.dquote EmptyString)))
     = inl (JSONError "invalid JSON text").
Proof. repeat split; vm_compute; reflexivity. Qed.
